(** * obsidian-ai-notes: the recording, transcription and save pipeline

    A shallow embedding of [main.ts].  JavaScript strings are sequences of
    UTF-16 code units; the plugin's methods are computations over the plugin
    object that log every call they make to the host (Obsidian, the browser's
    media and file APIs, the inference service). *)

From Stdlib Require Import List NArith ZArith Bool Lia.
From Stdlib Require Import Strings.String Strings.Ascii Numbers.DecimalString.
Import ListNotations.

Set Implicit Arguments.

(** ** JavaScript strings *)

Module JS.

(** A string is a list of UTF-16 code units; the regular expressions of
    [main.ts] carry no [u] flag, so they match code unit by code unit. *)
Definition char16 := N.
Definition jsstring := list char16.

(** Code units of a literal of the source (all of them are ASCII). *)
Definition lit (s : string) : jsstring :=
  map N_of_ascii (list_ascii_of_string s).

(** [!s] is true exactly for the empty string. *)
Definition truthy (s : jsstring) : bool :=
  match s with [] => false | _ :: _ => true end.

(** [x ?? d] on a nullable string. *)
Definition nullish (x : option jsstring) (d : jsstring) : jsstring :=
  match x with Some s => s | None => d end.

(** The class [\s], which is also the set [String.prototype.trim] removes:
    WhiteSpace and LineTerminator of ECMAScript. *)
Definition is_ws (c : char16) : bool :=
  ((9 <=? c) && (c <=? 13)              (* \t \n \v \f \r *)
   || (c =? 32)                         (* space *)
   || (c =? 160)                        (* U+00A0 *)
   || (c =? 5760)                       (* U+1680 *)
   || ((8192 <=? c) && (c <=? 8202))    (* U+2000 .. U+200A *)
   || (c =? 8232) || (c =? 8233)        (* U+2028, U+2029 *)
   || (c =? 8239)                       (* U+202F *)
   || (c =? 8287)                       (* U+205F *)
   || (c =? 12288)                      (* U+3000 *)
   || (c =? 65279))%N.                  (* U+FEFF *)

Definition space : char16 := 32%N.
Definition dot : char16 := 46%N.
Definition dash : char16 := 45%N.

Fixpoint drop_while (p : char16 -> bool) (s : jsstring) : jsstring :=
  match s with
  | [] => []
  | c :: r => if p c then drop_while p r else s
  end.

(** [s.replace(/[...]/g, rep)] for a class of single code units. *)
Definition replace_class (p : char16 -> bool) (rep : jsstring)
           (s : jsstring) : jsstring :=
  flat_map (fun c => if p c then rep else [c]) s.

(** [s.replace(/[...]+/g, rep)]: the matches are the maximal runs of the
    class, found from left to right. *)
Fixpoint replace_runs (p : char16 -> bool) (rep : jsstring)
         (s : jsstring) : jsstring :=
  match s with
  | [] => []
  | c :: r =>
      if p c then rep ++ replace_runs_in p rep r
      else c :: replace_runs p rep r
  end
with replace_runs_in (p : char16 -> bool) (rep : jsstring)
         (s : jsstring) : jsstring :=
  match s with
  | [] => []
  | c :: r =>
      if p c then replace_runs_in p rep r
      else c :: replace_runs p rep r
  end.

(** The string without the maximal run of the class that ends it. *)
Definition drop_end (p : char16 -> bool) (s : jsstring) : jsstring :=
  rev (drop_while p (rev s)).

(** [s.replace(/[...]+$/g, rep)]: [$] only holds at the end of the input,
    so the one match is the maximal run of the class that ends the
    string, when there is one. *)
Definition replace_trailing_run (p : char16 -> bool) (rep : jsstring)
           (s : jsstring) : jsstring :=
  let kept := drop_end p s in
  if (List.length kept <? List.length s)%nat then kept ++ rep else s.

(** [s.trim()]. *)
Definition trim (s : jsstring) : jsstring :=
  drop_end is_ws (drop_while is_ws s).

End JS.

Import JS.

(** ** The file name of a note *)

(** The character class of the first [replace] of [sanitizeFileName]. *)
Definition is_forbidden (c : char16) : bool :=
  ((c =? 92)      (* backslash *)
   || (c =? 47)   (* slash *)
   || (c =? 58)   (* colon *)
   || (c =? 42)   (* asterisk *)
   || (c =? 63)   (* question mark *)
   || (c =? 34)   (* double quote *)
   || (c =? 60)   (* less than *)
   || (c =? 62)   (* greater than *)
   || (c =? 124)  (* vertical bar *))%N.

(** The class [[ .]]. *)
Definition is_space_or_dot (c : char16) : bool :=
  ((c =? 32) || (c =? 46))%N.

(** [AiNotes.sanitizeFileName]. *)
Definition sanitizeFileName (name : jsstring) : jsstring :=
  let replaced :=
    trim (replace_runs is_ws [space] (replace_class is_forbidden [dash] name)) in
  replace_trailing_run is_space_or_dot [] replaced.

(** The file name as the specification words it: the nine characters are
    removed, the rest is as in [sanitizeFileName]. *)
Definition spec_sanitize (name : jsstring) : jsstring :=
  let stripped := filter (fun c => negb (is_forbidden c)) name in
  replace_trailing_run is_space_or_dot []
    (trim (replace_runs is_ws [space] stripped)).

(** [`${n}`] for an integral number such as [Date.now()]. *)
Definition number_to_string (n : Z) : jsstring :=
  lit (NilEmpty.string_of_int (Z.to_int n)).

(** Lines 146 to 151 of [transcribeAndSave]: the path of the note, from the
    pending title and the clock. *)
Definition folderPath : jsstring := lit "transcriptions".

Definition baseName (title : option jsstring) (now : Z) : jsstring :=
  let providedTitle := trim (nullish title []) in
  let safeBase :=
    if truthy providedTitle then sanitizeFileName providedTitle else [] in
  if truthy safeBase && (0 <? List.length safeBase)%nat then safeBase
  else lit "transcription-" ++ number_to_string now.

Definition filePath (title : option jsstring) (now : Z) : jsstring :=
  folderPath ++ lit "/" ++ (baseName title now ++ lit ".md").

(** ** Data model *)

Record TranscriptionType := {
  name : jsstring;
  description : jsstring;
  prompt : jsstring
}.

Record AiNotesSettings := {
  geminiApiKey : jsstring;
  model : jsstring;
  customTranscriptionTypes : list TranscriptionType
}.

Definition DEFAULT_SETTINGS : AiNotesSettings :=
  {| geminiApiKey := [];
     model := lit "gemini-1.5-flash";
     customTranscriptionTypes := [] |}.

(** A blob: its bytes and its MIME type. *)
Record Blob := {
  blob_bytes : list N;
  blob_type : jsstring
}.

(** [new Blob(parts, { type })]. *)
Definition new_Blob (parts : list Blob) (type : jsstring) : Blob :=
  {| blob_bytes := flat_map blob_bytes parts; blob_type := type |}.

Definition size (b : Blob) : nat := List.length (blob_bytes b).

Record MediaStreamTrack := { track_id : nat }.

(** A media stream, as the list [getTracks()] returns. *)
Definition MediaStream := list MediaStreamTrack.

Inductive RecordingState := inactive | recording | paused.

(** The two listeners [initRecording] registers on its recorder. *)
Inductive Listener :=
| push_chunk            (* dataavailable: audioChunks.push(event.data) *)
| open_type_modal.      (* stop: new TranscriptionTypeModal(...).open() *)

Record MediaRecorder := {
  rec_stream : MediaStream;
  state : RecordingState;
  listeners : list Listener
}.

(** The fields of the plugin object. *)
Record AiNotes := {
  settings : AiNotesSettings;
  mediaRecorder : option MediaRecorder;
  audioChunks : list Blob;
  stream : option MediaStream;
  currentTranscriptionTitle : option jsstring
}.

Inductive Status := transcribing | saving | completed | error.

(** [TranscriptionProgressModal]: its status field and whether it is shown. *)
Record TranscriptionProgressModal := {
  status : Status;
  shown : bool
}.

Definition getStatusText (m : TranscriptionProgressModal) : jsstring :=
  match status m with
  | transcribing => lit "Transcribing your audio..."
  | saving => lit "Saving transcription..."
  | completed => lit "Completed!"
  | error => lit "An error occurred"
  end.

(** ** The host *)

(** A thrown value; [message] is [undefined] for values that are not
    [Error]s, such as the event a [FileReader] rejects with. *)
Record Thrown := { message : option jsstring }.

Definition show_message (e : Thrown) : jsstring :=
  match message e with Some m => m | None => lit "undefined" end.

Inductive outcome (A : Type) :=
| resolved (a : A)
| rejected (e : Thrown).
Arguments rejected {A} e.

(** A part of a [generateContent] request. *)
Inductive Part :=
| inlineData (mimeType : jsstring) (data : option jsstring)
| text (t : jsstring).

(** What the browser, the vault and the inference service answer during
    one run of the pipeline. *)
Record Host := {
  getUserMedia : outcome MediaStream;
  MediaRecorder_new : MediaStream -> outcome unit;
  readAsDataURL : Blob -> outcome jsstring;
  generateContent : jsstring -> jsstring -> list Part -> outcome jsstring;
  vault_createFolder : jsstring -> outcome unit;
  vault_create : jsstring -> jsstring -> outcome unit;
  workspace_openLinkText : jsstring -> outcome unit;
  Date_now : Z
}.

Inductive ModalKind :=
| RecordingChoiceModal | RecordingModal | TranscriptionTypeModal.

(** The calls a computation makes, in order. *)
Inductive Call :=
| Notice (text : jsstring)
| call_getUserMedia
| call_MediaRecorder_new (s : MediaStream)
| call_recorder_start
| call_recorder_stop
| call_track_stop (t : MediaStreamTrack)
| call_readAsDataURL (b : Blob)
| call_generateContent (apiKey modelId : jsstring) (request : list Part)
| call_createFolder (path : jsstring)
| call_create (path content : jsstring)
| call_openLinkText (path : jsstring)
| call_setTimeout_close (ms : N)
| progress_open
| progress_close
| progress_updateStatus (s : Status)
| progress_updateContent (statusText : jsstring)
| modal_open_type (audioBlob : Blob)
| modal_close (k : ModalKind)
| showRecordingUI.

(** ** Computations *)

Record Store := {
  plugin : AiNotes;
  progress : option TranscriptionProgressModal
}.

Inductive completion (A : Type) :=
| Normal (a : A)
| Throw (e : Thrown).
Arguments Throw {A} e.

Record Run (A : Type) := {
  final : Store;
  calls : list Call;
  result : completion A
}.

Definition Eff (A : Type) := Store -> Run A.

Definition ret {A} (a : A) : Eff A :=
  fun st => {| final := st; calls := []; result := Normal a |}.

Definition throw {A} (e : Thrown) : Eff A :=
  fun st => {| final := st; calls := []; result := Throw e |}.

(** [prefix l r]: the run [r] after the calls [l]. *)
Definition prefix {A} (l : list Call) (r : Run A) : Run A :=
  match r with
  | {| final := st; calls := l'; result := x |} =>
      {| final := st; calls := l ++ l'; result := x |}
  end.

Definition bind {A B} (c : Eff A) (k : A -> Eff B) : Eff B :=
  fun st =>
    match c st with
    | {| final := st'; calls := l; result := Normal a |} => prefix l (k a st')
    | {| final := st'; calls := l; result := Throw e |} =>
        {| final := st'; calls := l; result := Throw e |}
    end.

(** [try { c } catch (e) { handler e }]. *)
Definition try_catch {A} (c : Eff A) (handler : Thrown -> Eff A) : Eff A :=
  fun st =>
    match c st with
    | {| final := st'; calls := l; result := Normal a |} =>
        {| final := st'; calls := l; result := Normal a |}
    | {| final := st'; calls := l; result := Throw e |} =>
        prefix l (handler e st')
    end.

Declare Scope eff_scope.
Delimit Scope eff_scope with eff.
Notation "x <- c ;; k" := (bind c (fun x => k))
  (at level 61, c at next level, right associativity) : eff_scope.
Notation "c ;; k" := (bind c (fun _ => k))
  (at level 61, right associativity) : eff_scope.
Open Scope eff_scope.

Definition call (c : Call) : Eff unit :=
  fun st => {| final := st; calls := [c]; result := Normal tt |}.

Definition this : Eff AiNotes :=
  fun st => {| final := st; calls := []; result := Normal (plugin st) |}.

Definition update (f : AiNotes -> AiNotes) : Eff unit :=
  fun st =>
    {| final := {| plugin := f (plugin st); progress := progress st |};
       calls := []; result := Normal tt |}.

(** [await] of a promise of the host. *)
Definition await {A} (o : outcome A) : Eff A :=
  match o with
  | resolved a => ret a
  | rejected e => throw e
  end.

Fixpoint forEach {A} (l : list A) (f : A -> Eff unit) : Eff unit :=
  match l with
  | [] => ret tt
  | a :: r => f a ;; forEach r f
  end.

Definition set_mediaRecorder (r : option MediaRecorder) (p : AiNotes) : AiNotes :=
  {| settings := settings p; mediaRecorder := r; audioChunks := audioChunks p;
     stream := stream p;
     currentTranscriptionTitle := currentTranscriptionTitle p |}.

Definition set_audioChunks (l : list Blob) (p : AiNotes) : AiNotes :=
  {| settings := settings p; mediaRecorder := mediaRecorder p; audioChunks := l;
     stream := stream p;
     currentTranscriptionTitle := currentTranscriptionTitle p |}.

Definition set_stream (s : option MediaStream) (p : AiNotes) : AiNotes :=
  {| settings := settings p; mediaRecorder := mediaRecorder p;
     audioChunks := audioChunks p; stream := s;
     currentTranscriptionTitle := currentTranscriptionTitle p |}.

Definition set_currentTranscriptionTitle (t : option jsstring) (p : AiNotes)
  : AiNotes :=
  {| settings := settings p; mediaRecorder := mediaRecorder p;
     audioChunks := audioChunks p; stream := stream p;
     currentTranscriptionTitle := t |}.

Definition set_state (s : RecordingState) (r : MediaRecorder) : MediaRecorder :=
  {| rec_stream := rec_stream r; state := s; listeners := listeners r |}.

(** ** [TranscriptionProgressModal] *)

Definition update_progress (f : TranscriptionProgressModal -> TranscriptionProgressModal)
  : Eff unit :=
  fun st =>
    {| final := {| plugin := plugin st; progress := option_map f (progress st) |};
       calls := []; result := Normal tt |}.

Definition updateContent : Eff unit :=
  fun st =>
    {| final := st;
       calls := match progress st with
                | Some m => [progress_updateContent (getStatusText m)]
                | None => []
                end;
       result := Normal tt |}.

(** [new TranscriptionProgressModal(app, plugin)]: the field initialiser
    sets the status to ['transcribing']. *)
Definition TranscriptionProgressModal_new : Eff unit :=
  fun st =>
    {| final := {| plugin := plugin st;
                   progress := Some {| status := transcribing; shown := false |} |};
       calls := []; result := Normal tt |}.

(** [progress.open()], which runs [onOpen]. *)
Definition progress_open_ : Eff unit :=
  call progress_open ;;
  update_progress (fun m => {| status := status m; shown := true |}) ;;
  updateContent.

Definition progress_close_ : Eff unit :=
  call progress_close ;;
  update_progress (fun m => {| status := status m; shown := false |}).

Definition updateStatus (s : Status) : Eff unit :=
  call (progress_updateStatus s) ;;
  update_progress (fun m => {| status := s; shown := shown m |}) ;;
  updateContent.

(** ** The plugin's methods *)

Definition comma : char16 := 44%N.

(** [s.split(',')]. *)
Fixpoint split_comma (s : jsstring) : list jsstring :=
  match s with
  | [] => [[]]
  | c :: r =>
      if (c =? comma)%N then [] :: split_comma r
      else match split_comma r with
           | piece :: pieces => (c :: piece) :: pieces
           | [] => [[c]]
           end
  end.

(** ** A call that is not awaited *)

(** The calls that start an operation of the host whose answer the code
    awaits. *)
Definition is_awaited (c : Call) : bool :=
  match c with
  | call_getUserMedia | call_readAsDataURL _ | call_generateContent _ _ _
  | call_createFolder _ | call_create _ _ | call_openLinkText _ => true
  | _ => false
  end.

(** The calls of an async function with the call [x] of its caller put
    where the function is first suspended: right after the first operation
    it awaits has been started, or at the end when it awaits none. *)
Fixpoint after_first_await (x : Call) (l : list Call) : list Call :=
  match l with
  | [] => [x]
  | c :: r =>
      if is_awaited c then c :: x :: r else c :: after_first_await x r
  end.

(** [c(); x()] where the async [c] is called without [await]: [c] runs up
    to its first suspension, the caller makes the call [x] and returns, and
    [c] goes on when the host answers.  The caller does not see how [c]
    ends. *)
Definition not_awaited {A : Type} (c : Eff A) (x : Call) : Eff unit :=
  fun st =>
    match c st with
    | {| final := st'; calls := l; result := _ |} =>
        {| final := st'; calls := after_first_await x l; result := Normal tt |}
    end.

Section Pipeline.

Variable h : Host.

(** [this.mediaRecorder.addEventListener(...)]. *)
Definition addEventListener (l : Listener) : Eff unit :=
  update (fun p =>
            set_mediaRecorder
              (option_map
                 (fun r => {| rec_stream := rec_stream r; state := state r;
                              listeners := listeners r ++ [l] |})
                 (mediaRecorder p)) p).

Definition initRecording : Eff bool :=
  p <- this ;;
  if negb (truthy (geminiApiKey (settings p))) then
    call (Notice (lit "Please set your Gemini API key in the settings.")) ;;
    ret false
  else
    try_catch
      (call call_getUserMedia ;;
       s <- await (getUserMedia h) ;;
       update (set_stream (Some s)) ;;
       call (call_MediaRecorder_new s) ;;
       await (MediaRecorder_new h s) ;;
       update (set_mediaRecorder
                 (Some {| rec_stream := s; state := inactive;
                          listeners := [] |})) ;;
       update (set_audioChunks []) ;;
       addEventListener push_chunk ;;
       addEventListener open_type_modal ;;
       ret true)
      (fun error_ =>
         call (Notice (lit "Error initializing recording: "
                         ++ show_message error_)) ;;
         ret false).

(** [MediaRecorder.start()] throws unless the recorder is inactive. *)
Definition start : Eff unit :=
  p <- this ;;
  match mediaRecorder p with
  | Some r =>
      call call_recorder_start ;;
      match state r with
      | inactive => update (set_mediaRecorder (Some (set_state recording r)))
      | _ => throw {| message := Some (lit "InvalidStateError") |}
      end
  | None => ret tt
  end.

Definition stopRecording : Eff unit :=
  p <- this ;;
  match mediaRecorder p with
  | Some r =>
      match state r with
      | inactive => ret tt
      | _ =>
          call call_recorder_stop ;;
          update (set_mediaRecorder (Some (set_state inactive r)))
      end
  | None => ret tt
  end ;;
  p <- this ;;
  match stream p with
  | Some s =>
      forEach s (fun track => call (call_track_stop track)) ;;
      update (set_stream None)
  | None => ret tt
  end.

(** The events a recorder fires, and the listeners of [initRecording]. *)
Inductive RecorderEvent :=
| dataavailable (data : Blob)
| stop.

Definition run_listener (ev : RecorderEvent) (l : Listener) : Eff unit :=
  match l, ev with
  | push_chunk, dataavailable data =>
      p <- this ;;
      update (set_audioChunks (audioChunks p ++ [data]))
  | open_type_modal, stop =>
      p <- this ;;
      let audioBlob := new_Blob (audioChunks p) (lit "audio/webm") in
      call (modal_open_type audioBlob)
  | _, _ => ret tt
  end.

Definition dispatchEvent (ev : RecorderEvent) : Eff unit :=
  p <- this ;;
  match mediaRecorder p with
  | Some r => forEach (listeners r) (run_listener ev)
  | None => ret tt
  end.

(** [blobToBase64]: the promise resolves with what follows the first
    comma of the data URL, [undefined] when there is no comma. *)
Definition blobToBase64 (blob : Blob) : Eff (option jsstring) :=
  call (call_readAsDataURL blob) ;;
  dataUrl <- await (readAsDataURL h blob) ;;
  let base64Data := nth_error (split_comma dataUrl) 1 in
  ret base64Data.

Definition transcribe (audioBlob : Blob) (prompt : jsstring) : Eff jsstring :=
  p <- this ;;
  let apiKey := geminiApiKey (settings p) in
  let modelId := model (settings p) in
  audioBase64 <- blobToBase64 audioBlob ;;
  let request := [inlineData (lit "audio/webm") audioBase64; text prompt] in
  call (call_generateContent apiKey modelId request) ;;
  await (generateContent h apiKey modelId request).

Definition transcribeAndSave (audioBlob : Blob) (prompt : jsstring) : Eff unit :=
  TranscriptionProgressModal_new ;;
  progress_open_ ;;
  updateStatus transcribing ;;
  try_catch
    (transcription <- transcribe audioBlob prompt ;;
     updateStatus saving ;;
     p <- this ;;
     let filePath := filePath (currentTranscriptionTitle p) (Date_now h) in
     try_catch
       (call (call_createFolder folderPath) ;;
        await (vault_createFolder h folderPath))
       (fun _ => ret tt) ;;
     let content := transcription in
     call (call_create filePath content) ;;
     await (vault_create h filePath content) ;;
     update (set_currentTranscriptionTitle None) ;;
     progress_close_ ;;
     call (call_openLinkText filePath) ;;
     await (workspace_openLinkText h filePath))
    (fun error_ =>
       updateStatus error ;;
       call (Notice (lit "Error during transcription: " ++ show_message error_)) ;;
       call (call_setTimeout_close 1500)).

(** ** [TranscriptionTypeModal] *)

Definition defaultTypes : list TranscriptionType :=
  [ {| name := lit "Simple";
       description := lit "A plain transcription of the audio.";
       prompt := lit "Transcribe the audio." |};
    {| name := lit "Standard";
       description := lit "Transcription with key takeaways and a summary.";
       prompt := lit "Transcribe the audio. Also, extract key takeaways and a summary." |};
    {| name := lit "Detailed";
       description := lit "Transcription with takeaways, summary, action items, and questions.";
       prompt := lit "Transcribe the audio. Also, extract key takeaways, a summary, action items, and a list of questions asked." |} ].

(** A [Setting] row with its Select button. *)
Record SettingRow := {
  row_type : TranscriptionType;
  row_name : jsstring;
  row_desc : jsstring;
  onClick : Eff unit
}.

(** The handler of the button is
    [this.plugin.transcribeAndSave(this.audioBlob, type.prompt); this.close();]:
    the promise of [transcribeAndSave] is dropped and the modal is closed
    while the run is suspended. *)
Definition type_row (audioBlob : Blob) (type : TranscriptionType) : SettingRow :=
  {| row_type := type;
     row_name := name type;
     row_desc := description type;
     onClick :=
       not_awaited (transcribeAndSave audioBlob (prompt type))
                   (modal_close TranscriptionTypeModal) |}.

(** The rows [onOpen] builds, in the order it adds them. *)
Definition TranscriptionTypeModal_onOpen (audioBlob : Blob) (p : AiNotes)
  : list SettingRow :=
  map (type_row audioBlob) defaultTypes
    ++ map (type_row audioBlob) (customTranscriptionTypes (settings p)).

(** A click on the Select button of row [i] of an opened modal. *)
Definition select (audioBlob : Blob) (i : nat) : Eff unit :=
  p <- this ;;
  match nth_error (TranscriptionTypeModal_onOpen audioBlob p) i with
  | Some row => onClick row
  | None => ret tt
  end.

(** ** [RecordingModal]: the Start Recording button *)

Definition startButton_click : Eff unit :=
  success <- initRecording ;;
  if success then start ;; call showRecordingUI
  else call (modal_close RecordingModal).

End Pipeline.

(** ** Observations on a run *)

(** The statuses the progress modal is given, in order. *)
Definition status_sequence (l : list Call) : list Status :=
  flat_map (fun c => match c with progress_updateStatus s => [s] | _ => [] end) l.

(** What is done to the progress modal, in order: it is opened, given a
    status or closed, or a timer is set to close it. *)
Definition progress_events (l : list Call) : list Call :=
  filter (fun c => match c with
                   | progress_open | progress_close | progress_updateStatus _
                   | call_setTimeout_close _ => true
                   | _ => false
                   end) l.

(** The notes the vault is asked to create. *)
Definition created (l : list Call) : list (jsstring * jsstring) :=
  flat_map (fun c => match c with call_create p c => [(p, c)] | _ => [] end) l.

(** The requests sent to the inference service. *)
Definition requests (l : list Call) : list (list Part) :=
  flat_map (fun c => match c with
                     | call_generateContent _ _ r => [r]
                     | _ => []
                     end) l.

Definition asks_for_microphone (c : Call) : bool :=
  match c with
  | call_getUserMedia | call_MediaRecorder_new _ | call_recorder_start => true
  | _ => false
  end.

Definition track_stops (l : list Call) : list MediaStreamTrack :=
  flat_map (fun c => match c with call_track_stop t => [t] | _ => [] end) l.

(** ** Sample inputs *)

Definition plugin0 : AiNotes :=
  {| settings := {| geminiApiKey := lit "k";
                    model := lit "gemini-1.5-flash";
                    customTranscriptionTypes :=
                      [ {| name := lit "Simple"; description := [];
                           prompt := lit "Summarise." |} ] |};
     mediaRecorder := None;
     audioChunks := [];
     stream := None;
     currentTranscriptionTitle := Some (lit "Team: Meeting/Alex? ") |}.

Definition store0 : Store := {| plugin := plugin0; progress := None |}.

Definition stream0 : MediaStream := [ {| track_id := 0 |}; {| track_id := 1 |} ].

Definition no_message : Thrown := {| message := None |}.
Definition failure (m : string) : Thrown := {| message := Some (lit m) |}.

(** A host on which every call succeeds. *)
Definition host_ok : Host :=
  {| getUserMedia := resolved stream0;
     MediaRecorder_new := fun _ => resolved tt;
     readAsDataURL := fun b =>
       resolved (lit "data:" ++ blob_type b ++ lit ";base64,");
     generateContent := fun _ _ _ => resolved (lit "hello");
     vault_createFolder := fun _ => rejected (failure "Folder already exists.");
     vault_create := fun _ _ => resolved tt;
     workspace_openLinkText := fun _ => resolved tt;
     Date_now := 1700000000123 |}.

(** The inference service rejects the request. *)
Definition host_no_service : Host :=
  {| getUserMedia := getUserMedia host_ok;
     MediaRecorder_new := MediaRecorder_new host_ok;
     readAsDataURL := readAsDataURL host_ok;
     generateContent := fun _ _ _ => rejected (failure "API key not valid");
     vault_createFolder := vault_createFolder host_ok;
     vault_create := vault_create host_ok;
     workspace_openLinkText := workspace_openLinkText host_ok;
     Date_now := Date_now host_ok |}.

(** The vault refuses to create the note. *)
Definition host_no_save : Host :=
  {| getUserMedia := getUserMedia host_ok;
     MediaRecorder_new := MediaRecorder_new host_ok;
     readAsDataURL := readAsDataURL host_ok;
     generateContent := generateContent host_ok;
     vault_createFolder := vault_createFolder host_ok;
     vault_create := fun _ _ => rejected (failure "File already exists.");
     workspace_openLinkText := workspace_openLinkText host_ok;
     Date_now := Date_now host_ok |}.

Definition blob0 : Blob := new_Blob [] (lit "audio/webm").

(** The plugin as first loaded: default settings, no key. *)
Definition store_no_key : Store :=
  {| plugin := {| settings := DEFAULT_SETTINGS;
                  mediaRecorder := None;
                  audioChunks := [];
                  stream := None;
                  currentTranscriptionTitle := None |};
     progress := None |}.


(** ** The shape of a sanitized name *)

Definition no_forbidden (s : jsstring) : bool :=
  forallb (fun c => negb (is_forbidden c)) s.

(** Every whitespace code unit is a space, and no two of them are adjacent;
    [after_ws] tells whether the code unit before [s] is whitespace. *)
Fixpoint single_spaced (after_ws : bool) (s : jsstring) : bool :=
  match s with
  | [] => true
  | c :: r =>
      if is_ws c then (c =? space)%N && negb after_ws && single_spaced true r
      else single_spaced false r
  end.

Definition starts_clean (s : jsstring) : bool :=
  match s with
  | [] => true
  | c :: _ => negb (is_ws c)
  end.

Definition ends_clean (s : jsstring) : bool :=
  match rev s with
  | [] => true
  | c :: _ => negb (is_ws c) && negb (is_space_or_dot c)
  end.

Definition not_ws (c : char16) : bool := negb (is_ws c).

Definition is_dot (c : char16) : bool := (c =? dot)%N.

(** A capture is active while the recorder records or pauses, or while a
    stream of the microphone is held. *)
Definition recorder_running (p : AiNotes) : bool :=
  match mediaRecorder p with
  | Some r => match state r with inactive => false | _ => true end
  | None => false
  end.

Definition capture_active (p : AiNotes) : bool :=
  recorder_running p
  || match stream p with Some _ => true | None => false end.

(** ** Further observations on a run *)

(** The texts of the notices shown. *)
Definition notices (l : list Call) : list jsstring :=
  flat_map (fun c => match c with Notice t => [t] | _ => [] end) l.

(** The notes the workspace is asked to open. *)
Definition opened (l : list Call) : list jsstring :=
  flat_map (fun c => match c with call_openLinkText p => [p] | _ => [] end) l.

(** The delays of the timeouts set to close the progress modal. *)
Definition timeouts (l : list Call) : list N :=
  flat_map (fun c => match c with call_setTimeout_close ms => [ms] | _ => [] end) l.

(** The key and the model of each request to the inference service. *)
Definition credentials (l : list Call) : list (jsstring * jsstring) :=
  flat_map (fun c => match c with
                     | call_generateContent k m _ => [(k, m)]
                     | _ => []
                     end) l.

(** The blobs the type modal is opened with. *)
Definition type_modals (l : list Call) : list Blob :=
  flat_map (fun c => match c with modal_open_type b => [b] | _ => [] end) l.

(** The host [h] with another answer to [createFolder]. *)
Definition with_createFolder (f : jsstring -> outcome unit) (h : Host) : Host :=
  {| getUserMedia := getUserMedia h;
     MediaRecorder_new := MediaRecorder_new h;
     readAsDataURL := readAsDataURL h;
     generateContent := generateContent h;
     vault_createFolder := f;
     vault_create := vault_create h;
     workspace_openLinkText := workspace_openLinkText h;
     Date_now := Date_now h |}.

(** How a run of [transcribeAndSave] ends: with the note created (and
    opened or not), or with the error it reports. *)
Inductive Ending :=
| saved_and_opened
| failed (e : Thrown).

Definition ending (h : Host) (audioBlob : Blob) (prompt : jsstring)
           (st : Store) : Ending :=
  match result (transcribe h audioBlob prompt st) with
  | Throw e => failed e
  | Normal content =>
      let path := filePath (currentTranscriptionTitle (plugin st)) (Date_now h) in
      match vault_create h path content with
      | rejected e => failed e
      | resolved _ =>
          match workspace_openLinkText h path with
          | rejected e => failed e
          | resolved _ => saved_and_opened
          end
      end
  end.

(** ** The upload, the title input and the timer *)

(** A file picked in the upload input: its type, and what
    [file.arrayBuffer()] answers. *)
Record File := {
  file_type : jsstring;
  arrayBuffer : outcome (list N)
}.

(** The [onchange] handler of [RecordingChoiceModal.handleFileUpload];
    [file] is [files?.[0]]. *)
Definition input_onchange (file : option File) : Eff unit :=
  match file with
  | Some f =>
      bytes <- await (arrayBuffer f) ;;
      let audioBlob :=
        new_Blob [ {| blob_bytes := bytes; blob_type := [] |} ] (file_type f) in
      call (modal_close RecordingChoiceModal) ;;
      call (modal_open_type audioBlob)
  | None => ret tt
  end.

(** The title input of [RecordingChoiceModal.onOpen]: the value it is given
    when the modal opens, and its [input] listener. *)
Definition titleInput_value (p : AiNotes) : jsstring :=
  nullish (currentTranscriptionTitle p) [].

Definition titleInput_oninput (val : jsstring) : Eff unit :=
  update (set_currentTranscriptionTitle (Some val)).

(** The recorder fires the events [evs], one after the other. *)
Definition fire (evs : list RecorderEvent) : Eff unit :=
  forEach evs dispatchEvent.

(** [s.padStart(targetLength, fill)] for a fill of one code unit. *)
Definition padStart (targetLength : nat) (fill : char16) (s : jsstring)
  : jsstring :=
  repeat fill (targetLength - List.length s) ++ s.

Definition zero : char16 := 48%N.

(** The text of the timer of [RecordingModal.showRecordingUI] for a count
    of seconds, and one tick of its interval. *)
Definition timer_text (seconds : N) : jsstring :=
  let minutes :=
    padStart 2 zero (number_to_string (Z.of_N (seconds / 60))) in
  let secs :=
    padStart 2 zero (number_to_string (Z.of_N (seconds mod 60))) in
  minutes ++ lit ":" ++ secs.

Definition timer_tick (seconds : N) : N * jsstring :=
  let seconds' := (seconds + 1)%N in
  (seconds', timer_text seconds').

(** The seconds a timer text stands for, when it is two digits, a colon
    and two digits. *)
Definition digit_value (c : char16) : option N :=
  if ((48 <=? c) && (c <=? 57))%N then Some (c - 48)%N else None.

Definition timer_seconds (t : jsstring) : option N :=
  match t with
  | [m1; m2; colon; s1; s2] =>
      match digit_value m1, digit_value m2, digit_value s1, digit_value s2 with
      | Some a, Some b, Some c, Some d =>
          if ((colon =? 58) && (10 * c + d <? 60))%N
          then Some ((10 * a + b) * 60 + 10 * c + d)%N
          else None
      | _, _, _, _ => None
      end
  | _ => None
  end.

(** ** More sample inputs *)

(** The microphone is refused. *)
Definition host_no_microphone : Host :=
  {| getUserMedia := rejected (failure "Permission denied");
     MediaRecorder_new := MediaRecorder_new host_ok;
     readAsDataURL := readAsDataURL host_ok;
     generateContent := generateContent host_ok;
     vault_createFolder := vault_createFolder host_ok;
     vault_create := vault_create host_ok;
     workspace_openLinkText := workspace_openLinkText host_ok;
     Date_now := Date_now host_ok |}.

(** The recorder cannot be built. *)
Definition host_no_recorder : Host :=
  {| getUserMedia := getUserMedia host_ok;
     MediaRecorder_new := fun _ => rejected (failure "NotSupportedError");
     readAsDataURL := readAsDataURL host_ok;
     generateContent := generateContent host_ok;
     vault_createFolder := vault_createFolder host_ok;
     vault_create := vault_create host_ok;
     workspace_openLinkText := workspace_openLinkText host_ok;
     Date_now := Date_now host_ok |}.

(** A reader that encodes one known blob. *)
Definition host_reader (dataUrl : jsstring) : Host :=
  {| getUserMedia := getUserMedia host_ok;
     MediaRecorder_new := MediaRecorder_new host_ok;
     readAsDataURL := fun _ => resolved dataUrl;
     generateContent := generateContent host_ok;
     vault_createFolder := vault_createFolder host_ok;
     vault_create := vault_create host_ok;
     workspace_openLinkText := workspace_openLinkText host_ok;
     Date_now := Date_now host_ok |}.

Definition chunk (bytes : list N) : Blob :=
  {| blob_bytes := bytes; blob_type := lit "audio/webm" |}.

Definition mp3_file : File :=
  {| file_type := lit "audio/mpeg"; arrayBuffer := resolved [73; 68; 51]%N |}.

(** A string without a comma. *)
Definition has_no_comma (s : jsstring) : bool :=
  forallb (fun c => negb (c =? comma)%N) s.

(** ** Settings and the settings tab *)

(** [generatePrompt]: the request is the one text built around the name of
    the type. *)
Definition generatePrompt_text (typeName : jsstring) : jsstring :=
  lit "Generate a detailed prompt for a transcription service. The user wants to transcribe an audio and get a result of type '"
    ++ typeName
    ++ lit "'. The prompt should clearly instruct the AI on what to extract from the audio. For example, for a 'Meeting Summary' type, the prompt could be 'Transcribe the audio and provide a summary of the meeting, including key decisions and action items.'".

Definition generatePrompt (h : Host) (typeName : jsstring) : Eff jsstring :=
  p <- this ;;
  let apiKey := geminiApiKey (settings p) in
  let modelId := model (settings p) in
  let prompt := generatePrompt_text typeName in
  call (call_generateContent apiKey modelId [text prompt]) ;;
  await (generateContent h apiKey modelId [text prompt]).

(** What [loadData] gives when there is a data file: an object with some of
    the fields of the settings. *)
Record SavedData := {
  saved_geminiApiKey : option jsstring;
  saved_model : option jsstring;
  saved_customTranscriptionTypes : option (list TranscriptionType)
}.


(** [Object.assign({}, defaults, data)]. *)
Definition Object_assign (defaults : AiNotesSettings) (data : option SavedData)
  : AiNotesSettings :=
  match data with
  | None => defaults
  | Some d =>
      {| geminiApiKey :=
           match saved_geminiApiKey d with
           | Some k => k
           | None => geminiApiKey defaults
           end;
         model :=
           match saved_model d with
           | Some m => m
           | None => model defaults
           end;
         customTranscriptionTypes :=
           match saved_customTranscriptionTypes d with
           | Some l => l
           | None => customTranscriptionTypes defaults
           end |}
  end.



Record DataHost := {
  loadData : outcome (option SavedData);
  saveData : AiNotesSettings -> outcome unit
}.

Definition set_settings (s : AiNotesSettings) (p : AiNotes) : AiNotes :=
  {| settings := s; mediaRecorder := mediaRecorder p;
     audioChunks := audioChunks p; stream := stream p;
     currentTranscriptionTitle := currentTranscriptionTitle p |}.

Definition set_geminiApiKey (k : jsstring) (s : AiNotesSettings)
  : AiNotesSettings :=
  {| geminiApiKey := k; model := model s;
     customTranscriptionTypes := customTranscriptionTypes s |}.

Definition set_model (m : jsstring) (s : AiNotesSettings) : AiNotesSettings :=
  {| geminiApiKey := geminiApiKey s; model := m;
     customTranscriptionTypes := customTranscriptionTypes s |}.

Definition set_customTranscriptionTypes (l : list TranscriptionType)
           (s : AiNotesSettings) : AiNotesSettings :=
  {| geminiApiKey := geminiApiKey s; model := model s;
     customTranscriptionTypes := l |}.

Definition set_name (v : jsstring) (t : TranscriptionType) : TranscriptionType :=
  {| name := v; description := description t; prompt := prompt t |}.

Definition set_description (v : jsstring) (t : TranscriptionType)
  : TranscriptionType :=
  {| name := name t; description := v; prompt := prompt t |}.

Definition set_prompt (v : jsstring) (t : TranscriptionType)
  : TranscriptionType :=
  {| name := name t; description := description t; prompt := v |}.

(** [l.splice(index, 1)]. *)
Definition splice1 {A} (index : nat) (l : list A) : list A :=
  firstn index l ++ skipn (S index) l.

(** Computations of the modals and of the settings tab: like [Eff], over a
    state [S] and with calls of type [C]. *)
Record ActRun (S C A : Type) := {
  act_final : S;
  act_calls : list C;
  act_result : completion A
}.

Definition Act (S C A : Type) := S -> ActRun S C A.

Definition act_prefix {S C A} (l : list C) (r : ActRun S C A) : ActRun S C A :=
  match r with
  | {| act_final := st; act_calls := l'; act_result := x |} =>
      {| act_final := st; act_calls := l ++ l'; act_result := x |}
  end.

Definition act_ret {S C A} (a : A) : Act S C A :=
  fun st => {| act_final := st; act_calls := []; act_result := Normal a |}.

Definition act_bind {S C A B} (c : Act S C A) (k : A -> Act S C B) : Act S C B :=
  fun st =>
    match c st with
    | {| act_final := st'; act_calls := l; act_result := Normal a |} =>
        act_prefix l (k a st')
    | {| act_final := st'; act_calls := l; act_result := Throw e |} =>
        {| act_final := st'; act_calls := l; act_result := Throw e |}
    end.

(** [try { c } catch (e) { handler e } finally { finalizer }], for a
    finalizer that does not throw. *)
Definition act_try {S C A} (c : Act S C A) (handler : Thrown -> Act S C A)
           (finalizer : Act S C unit) : Act S C A :=
  fun st =>
    let caught :=
      match c st with
      | {| act_final := st'; act_calls := l; act_result := Normal a |} =>
          {| act_final := st'; act_calls := l; act_result := Normal a |}
      | {| act_final := st'; act_calls := l; act_result := Throw e |} =>
          act_prefix l (handler e st')
      end in
    match caught with
    | {| act_final := st'; act_calls := l; act_result := x |} =>
        match finalizer st' with
        | {| act_final := st''; act_calls := l'; act_result := _ |} =>
            {| act_final := st''; act_calls := l ++ l'; act_result := x |}
        end
    end.

Definition act_call {S C} (c : C) : Act S C unit :=
  fun st => {| act_final := st; act_calls := [c]; act_result := Normal tt |}.

Definition act_get {S C} : Act S C S :=
  fun st => {| act_final := st; act_calls := []; act_result := Normal st |}.

Definition act_update {S C} (f : S -> S) : Act S C unit :=
  fun st => {| act_final := f st; act_calls := []; act_result := Normal tt |}.

(** A computation of the plugin, run on the part [get] of the state, its
    calls tagged by [inj]. *)
Definition act_lift {S C A} (get : S -> Store) (put : Store -> S -> S)
           (inj : Call -> C) (c : Eff A) : Act S C A :=
  fun st =>
    match c (get st) with
    | {| final := st'; calls := l; result := x |} =>
        {| act_final := put st' st; act_calls := map inj l; act_result := x |}
    end.

Declare Scope act_scope.
Delimit Scope act_scope with act.
Notation "x <- c ;; k" := (act_bind c (fun x => k))
  (at level 61, c at next level, right associativity) : act_scope.
Notation "c ;; k" := (act_bind c (fun _ => k))
  (at level 61, right associativity) : act_scope.

(** The calls of the settings tab: those of the plugin, and its own. *)
Inductive TabCall :=
| plugin_call (c : Call)
| call_saveData (data : AiNotesSettings)
| call_display
| generating_open
| generating_close.

Definition Tab (A : Type) := Act Store TabCall A.

Definition lift {A} (c : Eff A) : Tab A :=
  act_lift (fun st => st) (fun st' _ => st') plugin_call c.

Definition tab_call (c : TabCall) : Tab unit := act_call c.

Definition update_settings (f : AiNotesSettings -> AiNotesSettings) : Tab unit :=
  lift (update (fun p => set_settings (f (settings p)) p)).

Section SettingsTab.

Variable h : Host.
Variable dh : DataHost.

(** The [TypeError] the engine throws when a property of [undefined] is
    set. *)
Variable TypeError : Thrown.

(** [loadSettings]; [defaults] is the object [DEFAULT_SETTINGS] of the
    module as it is when the method runs: it starts as the constant
    [DEFAULT_SETTINGS], and its array is changed with the settings that
    share it. *)
Definition loadSettings (defaults : AiNotesSettings) : Tab unit :=
  (data <- lift (await (loadData dh)) ;;
   update_settings (fun _ => Object_assign defaults data))%act.

Definition saveSettings : Tab unit :=
  (p <- lift this ;;
   tab_call (call_saveData (settings p)) ;;
   lift (await (saveData dh (settings p))))%act.

(** [customTranscriptionTypes[index].field = value], a [TypeError] when
    there is no element of that index. *)
Definition assign_at (index : nat) (f : TranscriptionType -> TranscriptionType)
  : Tab unit :=
  (p <- lift this ;;
   let types := customTranscriptionTypes (settings p) in
   match nth_error types index with
   | Some t =>
       update_settings
         (set_customTranscriptionTypes
            (firstn index types ++ f t :: skipn (S index) types))
   | None => lift (throw TypeError)
   end)%act.

Definition display : Tab unit := tab_call call_display.

(** The handlers of [AiNotesSettingTab.display]; [type] and [index] are the
    variables the handlers of a row close over. *)
Definition geminiApiKey_onChange (value : jsstring) : Tab unit :=
  (update_settings (set_geminiApiKey value) ;; saveSettings)%act.

Definition model_onChange (value : jsstring) : Tab unit :=
  (update_settings (set_model value) ;; saveSettings)%act.

Definition name_onChange (index : nat) (value : jsstring) : Tab unit :=
  (assign_at index (set_name value) ;; saveSettings)%act.

Definition description_onChange (index : nat) (value : jsstring) : Tab unit :=
  (assign_at index (set_description value) ;; saveSettings)%act.

Definition prompt_onChange (index : nat) (value : jsstring) : Tab unit :=
  (assign_at index (set_prompt value) ;; saveSettings)%act.

Definition generate_onClick (type : TranscriptionType) (index : nat) : Tab unit :=
  (tab_call generating_open ;;
   act_try
     (generatedPrompt <- lift (generatePrompt h (name type)) ;;
      assign_at index (set_prompt generatedPrompt) ;;
      saveSettings ;;
      display)
     (fun error_ =>
        lift (call (Notice (lit "Error generating prompt: "
                              ++ show_message error_))))
     (tab_call generating_close))%act.

Definition delete_onClick (index : nat) : Tab unit :=
  (update_settings
     (fun s => set_customTranscriptionTypes
                 (splice1 index (customTranscriptionTypes s)) s) ;;
   saveSettings ;;
   display)%act.

Definition addNewType_onClick : Tab unit :=
  (update_settings
     (fun s => set_customTranscriptionTypes
                 (customTranscriptionTypes s
                    ++ [ {| name := []; description := []; prompt := [] |} ]) s) ;;
   saveSettings ;;
   display)%act.

(** One use of the settings tab. *)
Inductive TabAction :=
| type_key (value : jsstring)
| pick_model (value : jsstring)
| type_name (index : nat) (value : jsstring)
| type_description (index : nat) (value : jsstring)
| type_prompt (index : nat) (value : jsstring)
| click_generate (type : TranscriptionType) (index : nat)
| click_delete (index : nat)
| click_add.

Definition run_action (a : TabAction) : Tab unit :=
  match a with
  | type_key v => geminiApiKey_onChange v
  | pick_model v => model_onChange v
  | type_name i v => name_onChange i v
  | type_description i v => description_onChange i v
  | type_prompt i v => prompt_onChange i v
  | click_generate t i => generate_onClick t i
  | click_delete i => delete_onClick i
  | click_add => addNewType_onClick
  end.

End SettingsTab.

(** The settings handed to [saveData], in order. *)
Definition saves (l : list TabCall) : list AiNotesSettings :=
  flat_map (fun c => match c with call_saveData s => [s] | _ => [] end) l.

Definition displays (l : list TabCall) : nat :=
  List.length (filter (fun c => match c with call_display => true | _ => false end) l).

(** A data file that accepts every write. *)
Definition data_ok (loaded : option SavedData) : DataHost :=
  {| loadData := resolved loaded; saveData := fun _ => resolved tt |}.

(** A data file that cannot be written. *)
Definition data_read_only : DataHost :=
  {| loadData := resolved None;
     saveData := fun _ => rejected (failure "EACCES") |}.

(** The notices shown from the tab, and the texts it sends to the
    inference service. *)
Definition tab_notices (l : list TabCall) : list jsstring :=
  flat_map (fun c => match c with plugin_call (Notice t) => [t] | _ => [] end) l.

Definition tab_requests (l : list TabCall) : list (list Part) :=
  flat_map (fun c => match c with
                     | plugin_call (call_generateContent _ _ r) => [r]
                     | _ => []
                     end) l.

(** Everything of the plugin but its settings. *)
Definition recording_state (p : AiNotes)
  : option MediaRecorder * list Blob * option MediaStream * option jsstring :=
  (mediaRecorder p, audioChunks p, stream p, currentTranscriptionTitle p).

(** The run [r] from [st] puts [t'] at [index] of the list of types, saves
    the settings, and changes nothing else of them. *)
Definition edits_one_type (st : Store) (index : nat) (t' : TranscriptionType)
           (r : ActRun Store TabCall unit) : Prop :=
  let types := customTranscriptionTypes (settings (plugin st)) in
  let s' := settings (plugin (act_final r)) in
  (forall j, nth_error (customTranscriptionTypes s') j
             = if (j =? index)%nat then Some t' else nth_error types j)
  /\ List.length (customTranscriptionTypes s') = List.length types
  /\ geminiApiKey s' = geminiApiKey (settings (plugin st))
  /\ model s' = model (settings (plugin st))
  /\ saves (act_calls r) = [s'].

(** ** [RecordingModal]: the recording view *)

(** The fields of the modal, with the plugin it holds and the text of its
    timer element.  An identifier of a timer or of a frame request is an
    integer greater than zero, so the test [if (this.timerIntervalId)] asks
    whether there is one. *)
Record RecordingView := {
  view_store : Store;
  audioContext : bool;
  analyser : bool;
  animationFrameId : option positive;
  timerIntervalId : option positive;
  seconds : N;
  timerEl : jsstring
}.

(** What the browser answers to the view. *)
Record Browser := {
  getContext : bool;
  setInterval : positive;
  AudioContext_new : outcome unit;
  createMediaStreamSource : outcome unit;
  requestAnimationFrame : positive
}.

Inductive ViewCall :=
| view_plugin (c : Call)
| call_setInterval (ms : N) (id : positive)
| call_clearInterval (id : positive)
| call_requestAnimationFrame (id : positive)
| call_cancelAnimationFrame (id : positive)
| call_AudioContext_new
| call_audioContext_close
| draw_waveform
| stopButton_created
| call_removeStyles.

Definition View (A : Type) := Act RecordingView ViewCall A.

Definition set_view_store (st : Store) (v : RecordingView) : RecordingView :=
  {| view_store := st; audioContext := audioContext v; analyser := analyser v;
     animationFrameId := animationFrameId v;
     timerIntervalId := timerIntervalId v; seconds := seconds v;
     timerEl := timerEl v |}.

Definition set_audioContext (b : bool) (v : RecordingView) : RecordingView :=
  {| view_store := view_store v; audioContext := b; analyser := analyser v;
     animationFrameId := animationFrameId v;
     timerIntervalId := timerIntervalId v; seconds := seconds v;
     timerEl := timerEl v |}.

Definition set_analyser (b : bool) (v : RecordingView) : RecordingView :=
  {| view_store := view_store v; audioContext := audioContext v; analyser := b;
     animationFrameId := animationFrameId v;
     timerIntervalId := timerIntervalId v; seconds := seconds v;
     timerEl := timerEl v |}.

Definition set_animationFrameId (id : option positive) (v : RecordingView)
  : RecordingView :=
  {| view_store := view_store v; audioContext := audioContext v;
     analyser := analyser v; animationFrameId := id;
     timerIntervalId := timerIntervalId v; seconds := seconds v;
     timerEl := timerEl v |}.

Definition set_timerIntervalId (id : option positive) (v : RecordingView)
  : RecordingView :=
  {| view_store := view_store v; audioContext := audioContext v;
     analyser := analyser v; animationFrameId := animationFrameId v;
     timerIntervalId := id; seconds := seconds v; timerEl := timerEl v |}.

Definition set_timer (s : N) (text : jsstring) (v : RecordingView)
  : RecordingView :=
  {| view_store := view_store v; audioContext := audioContext v;
     analyser := analyser v; animationFrameId := animationFrameId v;
     timerIntervalId := timerIntervalId v; seconds := s; timerEl := text |}.

(** A new modal, with its field initialisers. *)
Definition RecordingModal_new (st : Store) : RecordingView :=
  {| view_store := st; audioContext := false; analyser := false;
     animationFrameId := None; timerIntervalId := None; seconds := 0;
     timerEl := [] |}.

Definition view_lift {A} (c : Eff A) : View A :=
  act_lift view_store set_view_store view_plugin c.

(** [onClose]. *)
Definition RecordingModal_onClose : View unit :=
  (act_call call_removeStyles ;;
   v <- act_get ;;
   match animationFrameId v with
   | Some id => act_call (call_cancelAnimationFrame id)
   | None => act_ret tt
   end ;;
   (if audioContext v then act_call call_audioContext_close else act_ret tt) ;;
   match timerIntervalId v with
   | Some id => act_call (call_clearInterval id)
   | None => act_ret tt
   end)%act.

(** [this.close()], which runs [onClose]. *)
Definition RecordingModal_close : View unit :=
  (act_call (view_plugin (modal_close RecordingModal)) ;;
   RecordingModal_onClose)%act.

(** The callback of the interval. *)
Definition interval_tick : View unit :=
  act_update (fun v =>
                let (seconds', text) := timer_tick (seconds v) in
                set_timer seconds' text v).

(** [draw], when the browser answers [id] to its frame request. *)
Definition draw (id : positive) : View unit :=
  (v <- act_get ;;
   if analyser v then
     act_call (call_requestAnimationFrame id) ;;
     act_update (set_animationFrameId (Some id)) ;;
     act_call draw_waveform
   else act_ret tt)%act.

(** The click listener of the Stop Recording button. *)
Definition stopButton_click : View unit :=
  (view_lift stopRecording ;;
   v <- act_get ;;
   match animationFrameId v with
   | Some id => act_call (call_cancelAnimationFrame id)
   | None => act_ret tt
   end ;;
   match timerIntervalId v with
   | Some id => act_call (call_clearInterval id)
   | None => act_ret tt
   end ;;
   RecordingModal_close)%act.

Definition RecordingModal_showRecordingUI (b : Browser) : View unit :=
  act_try
    (if negb (getContext b) then act_ret tt
     else
       (act_update (set_timer 0 (lit "00:00")) ;;
        act_call (call_setInterval 1000 (setInterval b)) ;;
        act_update (set_timerIntervalId (Some (setInterval b))) ;;
        act_call call_AudioContext_new ;;
        view_lift (await (AudioContext_new b)) ;;
        act_update (set_audioContext true) ;;
        v <- act_get ;;
        match stream (plugin (view_store v)) with
        | None => act_ret tt
        | Some _ =>
            view_lift (await (createMediaStreamSource b)) ;;
            act_update (set_analyser true) ;;
            draw (requestAnimationFrame b) ;;
            act_call stopButton_created
        end)%act)
    (fun error_ =>
       (view_lift (call (Notice (lit "Error showing recording UI: "
                                   ++ show_message error_))) ;;
        RecordingModal_close)%act)
    (act_ret tt).

(** The browser runs the frame callback once for each of [ids], answering
    each request of the next frame with the next identifier. *)
Fixpoint frames (ids : list positive) : View unit :=
  match ids with
  | [] => act_ret tt
  | id :: rest => (draw id ;; frames rest)%act
  end.

(** The interval fires [n] times. *)
Fixpoint ticks (n : nat) : View unit :=
  match n with
  | O => act_ret tt
  | S m => (interval_tick ;; ticks m)%act
  end.

(** The calls of [onClose] for a view. *)
Definition onClose_calls (v : RecordingView) : list ViewCall :=
  call_removeStyles
    :: match animationFrameId v with
       | Some id => [call_cancelAnimationFrame id]
       | None => []
       end
    ++ (if audioContext v then [call_audioContext_close] else [])
    ++ match timerIntervalId v with
       | Some id => [call_clearInterval id]
       | None => []
       end.

Definition cancelled_frames (l : list ViewCall) : list positive :=
  flat_map (fun c => match c with call_cancelAnimationFrame id => [id] | _ => [] end) l.

Definition requested_frames (l : list ViewCall) : list positive :=
  flat_map (fun c => match c with call_requestAnimationFrame id => [id] | _ => [] end) l.

Definition cleared_intervals (l : list ViewCall) : list positive :=
  flat_map (fun c => match c with call_clearInterval id => [id] | _ => [] end) l.

Definition set_intervals (l : list ViewCall) : list positive :=
  flat_map (fun c => match c with call_setInterval _ id => [id] | _ => [] end) l.

Definition view_notices (l : list ViewCall) : list jsstring :=
  flat_map (fun c => match c with view_plugin (Notice t) => [t] | _ => [] end) l.

Definition view_closes (l : list ViewCall) : nat :=
  List.length
    (filter (fun c => match c with
                      | view_plugin (modal_close RecordingModal) => true
                      | _ => false
                      end) l).

(** A browser that answers every call. *)
Definition browser_ok : Browser :=
  {| getContext := true; setInterval := 7%positive;
     AudioContext_new := resolved tt;
     createMediaStreamSource := resolved tt;
     requestAnimationFrame := 1%positive |}.

(** The plugin while it records from [stream0]. *)
Definition store_recording : Store :=
  {| plugin :=
       {| settings := settings plugin0;
          mediaRecorder :=
            Some {| rec_stream := stream0; state := recording;
                    listeners := [push_chunk; open_type_modal] |};
          audioChunks := [];
          stream := Some stream0;
          currentTranscriptionTitle := None |};
     progress := None |}.

(** * Properties *)

Unset Implicit Arguments.

(** ** Lists of code units *)

Section Runs.

Variable p : char16 -> bool.

Lemma drop_end_snoc (s : jsstring) (c : char16) :
  drop_end p (s ++ [c]) = if p c then drop_end p s else s ++ [c].
Proof.
  unfold drop_end. rewrite rev_app_distr. simpl.
  destruct (p c); [reflexivity|].
  simpl. now rewrite rev_involutive.
Qed.

Lemma drop_end_nil : drop_end p [] = [].
Proof. reflexivity. Qed.

(** [drop_end] read from the front. *)
Lemma drop_end_cons (c : char16) (s : jsstring) :
  drop_end p (c :: s) =
    match drop_end p s with
    | [] => if p c then [] else [c]
    | _ :: _ => c :: drop_end p s
    end.
Proof.
  induction s as [|d s IH] using rev_ind.
  - change [c] with ([] ++ [c]). rewrite drop_end_snoc. simpl.
    destruct (p c); reflexivity.
  - rewrite app_comm_cons, !drop_end_snoc.
    destruct (p d).
    + exact IH.
    + destruct s; reflexivity.
Qed.

Lemma drop_end_prefix (s : jsstring) :
  exists t, s = drop_end p s ++ t /\ forallb p t = true.
Proof.
  induction s as [|d s IH] using rev_ind.
  - exists []. split; reflexivity.
  - rewrite drop_end_snoc. destruct (p d) eqn:Hd.
    + destruct IH as (t & Ht & Hall). exists (t ++ [d]). split.
      * rewrite app_assoc, <- Ht. reflexivity.
      * rewrite forallb_app, Hall. simpl. now rewrite Hd.
    + exists []. split; [now rewrite app_nil_r | reflexivity].
Qed.

Lemma drop_end_length (s : jsstring) :
  (List.length (drop_end p s) <= List.length s)%nat.
Proof.
  destruct (drop_end_prefix s) as (t & Ht & _).
  rewrite Ht at 2. rewrite length_app. lia.
Qed.

Lemma drop_end_same_length (s : jsstring) :
  List.length (drop_end p s) = List.length s -> drop_end p s = s.
Proof.
  destruct (drop_end_prefix s) as (t & Ht & _). intros Hlen.
  rewrite Ht in Hlen at 2. rewrite length_app in Hlen.
  destruct t; [now rewrite app_nil_r in Ht | simpl in Hlen; lia].
Qed.

(** With an empty replacement, replacing the trailing run drops it. *)
Lemma replace_trailing_run_nil (s : jsstring) :
  replace_trailing_run p [] s = drop_end p s.
Proof.
  unfold replace_trailing_run.
  destruct (Nat.ltb_spec (List.length (drop_end p s)) (List.length s)) as [Hlt|Hge].
  - apply app_nil_r.
  - symmetry. apply drop_end_same_length.
    pose proof (drop_end_length s). lia.
Qed.

Lemma drop_end_last (s : jsstring) :
  match rev (drop_end p s) with
  | [] => True
  | c :: _ => p c = false
  end.
Proof.
  induction s as [|d s IH] using rev_ind.
  - exact I.
  - rewrite drop_end_snoc. destruct (p d) eqn:Hd; [exact IH|].
    rewrite rev_app_distr. simpl. exact Hd.
Qed.

Lemma drop_end_fixed (s : jsstring) :
  match rev s with
  | [] => True
  | c :: _ => p c = false
  end -> drop_end p s = s.
Proof.
  unfold drop_end. destruct (rev s) as [|c r] eqn:Hrev; intros H.
  - apply (f_equal (@rev _)) in Hrev. rewrite rev_involutive in Hrev.
    now subst.
  - simpl. rewrite H. rewrite <- Hrev. apply rev_involutive.
Qed.

Lemma drop_while_forallb (q : char16 -> bool) (s : jsstring) :
  forallb q s = true -> forallb q (drop_while p s) = true.
Proof.
  induction s as [|c s IH]; simpl; [easy|].
  intros H. apply andb_true_iff in H as [Hc Hs].
  destruct (p c); [auto|]. simpl. now rewrite Hc, Hs.
Qed.

Lemma drop_end_forallb (q : char16 -> bool) (s : jsstring) :
  forallb q s = true -> forallb q (drop_end p s) = true.
Proof.
  destruct (drop_end_prefix s) as (t & Ht & _). intros H.
  rewrite Ht, forallb_app in H. now apply andb_true_iff in H as [H _].
Qed.

Lemma drop_while_all (s : jsstring) :
  forallb p s = true -> drop_while p s = [].
Proof.
  induction s as [|c s IH]; simpl; [easy|].
  intros H. apply andb_true_iff in H as [Hc Hs]. now rewrite Hc, IH.
Qed.

Lemma drop_end_nil_iff (s : jsstring) :
  drop_end p s = [] <-> forallb p s = true.
Proof.
  split.
  - intros H. destruct (drop_end_prefix s) as (t & Ht & Hall).
    rewrite H in Ht. simpl in Ht. now subst.
  - intros H. unfold drop_end. rewrite drop_while_all; [reflexivity|].
    rewrite forallb_forall in *. intros x Hx. apply H.
    now apply in_rev.
Qed.

End Runs.

(** ** The stages of [sanitizeFileName] *)

Arguments replace_class p rep s : simpl never.

Abbreviation dashes := (replace_class is_forbidden [dash]).
Abbreviation collapse := (replace_runs is_ws [space]).
Abbreviation collapse_in := (replace_runs_in is_ws [space]).
Abbreviation strip := (drop_end is_space_or_dot).

Lemma sanitizeFileName_stages (s : jsstring) :
  sanitizeFileName s = strip (trim (collapse (dashes s))).
Proof. unfold sanitizeFileName. apply replace_trailing_run_nil. Qed.

Lemma forbidden_not_ws (c : char16) : is_forbidden c = true -> is_ws c = false.
Proof.
  unfold is_forbidden. rewrite !orb_true_iff, !N.eqb_eq.
  intuition (subst; reflexivity).
Qed.

Lemma ws_not_forbidden (c : char16) : is_ws c = true -> is_forbidden c = false.
Proof.
  intros Hws. destruct (is_forbidden c) eqn:Hf; [|reflexivity].
  apply forbidden_not_ws in Hf. congruence.
Qed.

(** *** No forbidden character survives *)

Lemma dashes_cons (c : char16) (s : jsstring) :
  dashes (c :: s) = (if is_forbidden c then dash else c) :: dashes s.
Proof. unfold replace_class. simpl. destruct (is_forbidden c); reflexivity. Qed.

Lemma dashes_map (s : jsstring) :
  dashes s = map (fun c => if is_forbidden c then dash else c) s.
Proof.
  induction s as [|c s IH]; [reflexivity|].
  rewrite dashes_cons, IH. reflexivity.
Qed.

Lemma no_forbidden_dashes (s : jsstring) : no_forbidden (dashes s) = true.
Proof.
  induction s as [|c s IH]; [reflexivity|].
  rewrite dashes_cons. unfold no_forbidden in *. simpl. rewrite IH.
  destruct (is_forbidden c) eqn:Hc; [reflexivity | now rewrite Hc].
Qed.

Lemma no_forbidden_collapse (s : jsstring) :
  no_forbidden s = true ->
  no_forbidden (collapse s) = true /\ no_forbidden (collapse_in s) = true.
Proof.
  unfold no_forbidden. induction s as [|c s IH]; simpl; [easy|].
  intros H. apply andb_true_iff in H as [Hc Hs].
  destruct (IH Hs) as [IH1 IH2].
  destruct (is_ws c); simpl; rewrite ?Hc, ?IH1, ?IH2; auto.
Qed.

Lemma dashes_fixed (s : jsstring) : no_forbidden s = true -> dashes s = s.
Proof.
  unfold no_forbidden. induction s as [|c s IH]; [reflexivity|].
  intros H. simpl in H. apply andb_true_iff in H as [Hc Hs].
  rewrite dashes_cons, IH by assumption.
  apply negb_true_iff in Hc. now rewrite Hc.
Qed.

(** *** Whitespace is left as single spaces *)

Lemma single_spaced_collapse (s : jsstring) :
  single_spaced false (collapse s) = true
  /\ single_spaced true (collapse_in s) = true.
Proof.
  induction s as [|c s [IH1 IH2]]; simpl; [easy|].
  destruct (is_ws c) eqn:Hc; simpl; rewrite ?Hc; auto.
Qed.

Lemma single_spaced_weaken (b : bool) (s : jsstring) :
  single_spaced b s = true -> single_spaced false s = true.
Proof.
  destruct s as [|c s]; simpl; [easy|].
  destruct (is_ws c); [|easy].
  rewrite !andb_true_iff. intuition.
Qed.

Lemma single_spaced_app_l (b : bool) (s t : jsstring) :
  single_spaced b (s ++ t) = true -> single_spaced b s = true.
Proof.
  revert b. induction s as [|c s IH]; intros b; simpl; [easy|].
  destruct (is_ws c); [|apply IH].
  rewrite !andb_true_iff. intuition eauto.
Qed.

Lemma single_spaced_drop_while (p : char16 -> bool) (b : bool) (s : jsstring) :
  single_spaced b s = true -> single_spaced false (drop_while p s) = true.
Proof.
  revert b. induction s as [|c s IH]; intros b; [easy|].
  intros H. simpl drop_while. destruct (p c).
  - simpl in H. destruct (is_ws c); [|eauto].
    rewrite !andb_true_iff in H. destruct H as [_ H]. eauto.
  - eapply single_spaced_weaken, H.
Qed.

Lemma single_spaced_drop_end (p : char16 -> bool) (b : bool) (s : jsstring) :
  single_spaced b s = true -> single_spaced b (drop_end p s) = true.
Proof.
  destruct (drop_end_prefix p s) as (t & Ht & _). intros H.
  rewrite Ht in H. eapply single_spaced_app_l, H.
Qed.

Lemma collapse_fixed (s : jsstring) :
  (single_spaced false s = true -> collapse s = s)
  /\ (single_spaced true s = true -> collapse_in s = s).
Proof.
  induction s as [|c s [IH1 IH2]]; simpl; [easy|].
  destruct (is_ws c); simpl.
  - rewrite andb_false_r. simpl. split; [|discriminate].
    rewrite andb_true_r, andb_true_iff, N.eqb_eq. intros [-> H].
    now rewrite IH2.
  - split; intros H; now rewrite IH1.
Qed.

(** Whitespace of a single-spaced string is the space. *)
Lemma single_spaced_ws_space (b : bool) (s : jsstring) (c : char16) :
  single_spaced b s = true -> In c s -> is_ws c = true -> c = space.
Proof.
  revert b. induction s as [|d s IH]; intros b; simpl; [easy|].
  intros H [->|Hin] Hws.
  - rewrite Hws, !andb_true_iff, N.eqb_eq in H. tauto.
  - destruct (is_ws d).
    + rewrite !andb_true_iff in H. destruct H as [_ H]. eauto.
    + eauto.
Qed.

(** *** No whitespace at either end, no dot at the end *)

Lemma starts_clean_drop_while (s : jsstring) :
  starts_clean (drop_while is_ws s) = true.
Proof.
  induction s as [|c s IH]; [reflexivity|].
  simpl. destruct (is_ws c) eqn:Hc; [exact IH|]. simpl. now rewrite Hc.
Qed.

Lemma starts_clean_drop_end (p : char16 -> bool) (s : jsstring) :
  starts_clean s = true -> starts_clean (drop_end p s) = true.
Proof.
  destruct s as [|c s]; [easy|]. rewrite drop_end_cons.
  destruct (drop_end p s); [destruct (p c)|]; easy.
Qed.

Lemma drop_while_fixed (s : jsstring) :
  starts_clean s = true -> drop_while is_ws s = s.
Proof.
  destruct s as [|c s]; [easy|]. simpl. intros H.
  apply negb_true_iff in H. now rewrite H.
Qed.

Lemma ends_clean_strip (b : bool) (s : jsstring) :
  single_spaced b s = true -> ends_clean (strip s) = true.
Proof.
  intros Hss. unfold ends_clean.
  pose proof (drop_end_last is_space_or_dot s) as Hlast.
  destruct (rev (strip s)) as [|c r] eqn:Hrev; [reflexivity|].
  rewrite Hlast, andb_true_r. apply negb_true_iff.
  destruct (is_ws c) eqn:Hws; [|reflexivity].
  assert (Hin : In c (strip s)) by (apply in_rev; rewrite Hrev; now left).
  assert (c = space).
  { eapply single_spaced_ws_space; [| exact Hin | exact Hws].
    eapply single_spaced_drop_end, Hss. }
  subst c. discriminate Hlast.
Qed.

Lemma ends_clean_trim_fixed (s : jsstring) :
  ends_clean s = true -> drop_end is_ws s = s.
Proof.
  unfold ends_clean. intros H. apply drop_end_fixed.
  destruct (rev s); [exact I|].
  apply andb_true_iff in H as [H _]. now apply negb_true_iff.
Qed.

Lemma ends_clean_strip_fixed (s : jsstring) :
  ends_clean s = true -> strip s = s.
Proof.
  unfold ends_clean. intros H. apply drop_end_fixed.
  destruct (rev s); [exact I|].
  apply andb_true_iff in H as [_ H]. now apply negb_true_iff.
Qed.

(** The four shape properties of a sanitized name. *)
Lemma sanitizeFileName_shape (s : jsstring) :
  let o := sanitizeFileName s in
  no_forbidden o = true /\ single_spaced false o = true
  /\ starts_clean o = true /\ ends_clean o = true.
Proof.
  cbv zeta. rewrite sanitizeFileName_stages. unfold trim.
  pose proof (single_spaced_collapse (dashes s)) as [Hss _].
  eapply single_spaced_drop_while in Hss.
  eapply (single_spaced_drop_end is_ws) in Hss.
  repeat split.
  - apply drop_end_forallb, drop_end_forallb, drop_while_forallb.
    apply no_forbidden_collapse, no_forbidden_dashes.
  - apply single_spaced_drop_end, Hss.
  - apply starts_clean_drop_end, starts_clean_drop_end, starts_clean_drop_while.
  - eapply ends_clean_strip, Hss.
Qed.

(** A name of that shape is left as it is. *)
Lemma sanitizeFileName_fixed (s : jsstring) :
  no_forbidden s = true -> single_spaced false s = true ->
  starts_clean s = true -> ends_clean s = true ->
  sanitizeFileName s = s.
Proof.
  intros Hnf Hss Hsc Hec.
  rewrite sanitizeFileName_stages, dashes_fixed by assumption.
  destruct (collapse_fixed s) as [Hc _]. rewrite Hc by assumption.
  unfold trim. rewrite drop_while_fixed by assumption.
  rewrite ends_clean_trim_fixed by assumption.
  now apply ends_clean_strip_fixed.
Qed.

(** *** What is left of the input *)

Lemma filter_not_ws_dashes (s : jsstring) :
  filter not_ws (dashes s) = dashes (filter not_ws s).
Proof.
  induction s as [|c s IH]; [reflexivity|].
  rewrite dashes_cons. simpl.
  destruct (is_forbidden c) eqn:Hf.
  - change (not_ws c) with (negb (is_ws c)).
    rewrite (forbidden_not_ws _ Hf). simpl.
    now rewrite dashes_cons, Hf, IH.
  - change (not_ws c) with (negb (is_ws c)).
    destruct (is_ws c); simpl; [exact IH|].
    now rewrite dashes_cons, Hf, IH.
Qed.

Lemma filter_not_ws_collapse (s : jsstring) :
  filter not_ws (collapse s) = filter not_ws s
  /\ filter not_ws (collapse_in s) = filter not_ws s.
Proof.
  induction s as [|c s [IH1 IH2]]; simpl; [easy|].
  change (not_ws c) with (negb (is_ws c)).
  destruct (is_ws c) eqn:Hc; simpl;
    change (not_ws c) with (negb (is_ws c)); rewrite ?Hc; simpl;
    split; congruence.
Qed.

Lemma filter_not_ws_all_ws (t : jsstring) :
  forallb is_ws t = true -> filter not_ws t = [].
Proof.
  induction t as [|c t IH]; simpl; [easy|].
  intros H. apply andb_true_iff in H as [Hc Ht].
  change (not_ws c) with (negb (is_ws c)). now rewrite Hc, IH.
Qed.

Lemma filter_not_ws_drop_while (s : jsstring) :
  filter not_ws (drop_while is_ws s) = filter not_ws s.
Proof.
  induction s as [|c s IH]; [reflexivity|].
  simpl. change (not_ws c) with (negb (is_ws c)).
  destruct (is_ws c) eqn:Hc; simpl; [exact IH|].
  change (not_ws c) with (negb (is_ws c)). now rewrite Hc.
Qed.

Lemma filter_not_ws_drop_end (s : jsstring) :
  filter not_ws (drop_end is_ws s) = filter not_ws s.
Proof.
  destruct (drop_end_prefix is_ws s) as (t & Ht & Hall).
  rewrite Ht at 2. rewrite filter_app, (filter_not_ws_all_ws t Hall).
  now rewrite app_nil_r.
Qed.

Lemma filter_not_ws_trim (s : jsstring) :
  filter not_ws (trim s) = filter not_ws s.
Proof.
  unfold trim. now rewrite filter_not_ws_drop_end, filter_not_ws_drop_while.
Qed.

Lemma filter_not_ws_spaces_dots (t : jsstring) :
  forallb is_space_or_dot t = true -> forallb is_dot (filter not_ws t) = true.
Proof.
  induction t as [|c t IH]; simpl; [easy|].
  intros H. apply andb_true_iff in H as [Hc Ht].
  unfold is_space_or_dot in Hc. apply orb_true_iff in Hc as [Hc|Hc];
    apply N.eqb_eq in Hc; subst c; simpl; auto.
Qed.

Lemma filter_not_ws_strip (s : jsstring) :
  exists dots, forallb is_dot dots = true
               /\ filter not_ws (strip s) ++ dots = filter not_ws s.
Proof.
  destruct (drop_end_prefix is_space_or_dot s) as (t & Ht & Hall).
  exists (filter not_ws t). split.
  - now apply filter_not_ws_spaces_dots.
  - rewrite Ht at 2. now rewrite filter_app.
Qed.

(** The code units of the name that are not whitespace are those of the
    input with a dash for each forbidden one, up to dots dropped at the
    end. *)
Lemma sanitizeFileName_content (s : jsstring) :
  exists dots, forallb is_dot dots = true
               /\ filter not_ws (sanitizeFileName s) ++ dots
                  = dashes (filter not_ws s).
Proof.
  rewrite sanitizeFileName_stages.
  destruct (filter_not_ws_strip (trim (collapse (dashes s)))) as (dots & Hd & He).
  exists dots. split; [exact Hd|].
  rewrite He, filter_not_ws_trim.
  destruct (filter_not_ws_collapse (dashes s)) as [-> _].
  apply filter_not_ws_dashes.
Qed.

(** A name that sanitizes to nothing holds only whitespace and dots. *)
Lemma sanitizeFileName_empty_iff (s : jsstring) :
  sanitizeFileName s = [] <-> forallb is_dot (filter not_ws s) = true.
Proof.
  split.
  - intros He. destruct (sanitizeFileName_content s) as (dots & Hd & Hc).
    rewrite He in Hc. simpl in Hc. subst dots.
    clear He. induction (filter not_ws s) as [|c l IH]; [reflexivity|].
    rewrite dashes_cons in Hd. simpl in *.
    apply andb_true_iff in Hd as [Hc Hl].
    destruct (is_forbidden c) eqn:Hf; [discriminate Hc|].
    rewrite Hc. auto.
  - intros Hall.
    destruct (sanitizeFileName_shape s) as (_ & _ & _ & Hec).
    destruct (sanitizeFileName_content s) as (dots & Hd & Hc).
    cbv zeta in Hec. unfold ends_clean in Hec.
    destruct (rev (sanitizeFileName s)) as [|c r] eqn:Hrev.
    + apply (f_equal (@rev _)) in Hrev. now rewrite rev_involutive in Hrev.
    + exfalso. apply andb_true_iff in Hec as [Hws Hsd].
      assert (Hin : In c (filter not_ws (sanitizeFileName s) ++ dots)).
      { apply in_or_app. left. apply filter_In. split; [|exact Hws].
        apply in_rev. rewrite Hrev. now left. }
      rewrite Hc in Hin.
      assert (Hdash : forall l, forallb is_dot l = true ->
                In c (dashes l) -> is_dot c = true).
      { clear. induction l as [|d l IH]; [easy|].
        rewrite dashes_cons. simpl. intros H. apply andb_true_iff in H as [Hd Hl].
        unfold is_dot in Hd. apply N.eqb_eq in Hd. subst d. simpl.
        intros [<-|Hin]; auto. }
      apply Hdash in Hin; [|exact Hall].
      unfold is_dot in Hin. apply N.eqb_eq in Hin. subst c. discriminate Hsd.
Qed.

(** ** The claims on [sanitizeFileName] *)

(** C2, as the specification words it, fails: a forbidden character is not
    removed, a dash takes its place. *)
Lemma sanitizeFileName_keeps_a_dash :
  sanitizeFileName (lit "a:b") = lit "a-b"
  /\ spec_sanitize (lit "a:b") = lit "ab"
  /\ sanitizeFileName (lit "a:b") <> spec_sanitize (lit "a:b").
Proof. repeat split. discriminate. Qed.

(** C2, amended: for every input the function replaces each of the nine
    characters with a dash (it removes none of them), collapses the runs of
    whitespace to one space each, trims, and drops the dots and spaces at
    the end.  So the name holds none of the nine characters; its code units
    other than whitespace are those of the input, in order, with a dash in
    place of each of the nine, up to dots dropped at the end; whitespace is
    left only as single spaces, none of them first or last; and the name
    does not end with a dot or a space. *)
Theorem sanitizeFileName_replaces_collapses_trims (s : jsstring) :
  let o := sanitizeFileName s in
  o = strip (trim (collapse (dashes s)))
  /\ dashes s = map (fun c => if is_forbidden c then dash else c) s
  /\ no_forbidden o = true
  /\ (exists dots, forallb is_dot dots = true
                   /\ filter not_ws o ++ dots = dashes (filter not_ws s))
  /\ single_spaced false o = true
  /\ starts_clean o = true
  /\ ends_clean o = true.
Proof.
  destruct (sanitizeFileName_shape s) as (Hnf & Hss & Hsc & Hec).
  cbv zeta.
  split; [apply sanitizeFileName_stages|].
  split; [apply dashes_map|].
  split; [exact Hnf|].
  split; [apply sanitizeFileName_content|].
  auto.
Qed.

(** C3: the name for the title "Team: Meeting/Alex? " is
    "Team- Meeting-Alex-": the first replacement puts a dash for the colon,
    the slash and the question mark, and the space at the end is dropped. *)
Theorem sanitizeFileName_team_meeting :
  dashes (lit "Team: Meeting/Alex? ") = lit "Team- Meeting-Alex- "
  /\ sanitizeFileName (lit "Team: Meeting/Alex? ") = lit "Team- Meeting-Alex-".
Proof. split; reflexivity. Qed.

(** C4: sanitizing is idempotent. *)
Theorem sanitizeFileName_idempotent (s : jsstring) :
  sanitizeFileName (sanitizeFileName s) = sanitizeFileName s.
Proof.
  destruct (sanitizeFileName_shape s) as (Hnf & Hss & Hsc & Hec).
  now apply sanitizeFileName_fixed.
Qed.

(** ** Running the pipeline *)

Arguments filePath title now : simpl never.
Arguments lit s : simpl never.
Arguments show_message e : simpl never.
Arguments nth_error {A} l n : simpl never.

Ltac eff_unfold :=
  cbv beta iota zeta delta
    [transcribeAndSave transcribe blobToBase64 initRecording start
     stopRecording dispatchEvent run_listener startButton_click select
     TranscriptionTypeModal_onOpen type_row onClick addEventListener
     TranscriptionProgressModal_new progress_open_ progress_close_
     updateStatus updateContent update_progress prefix
     bind try_catch ret throw call this update await
     final calls result plugin progress option_map].

Ltac eff_run :=
  eff_unfold;
  repeat match goal with
    | |- context [match ?o with resolved _ => _ | rejected _ => _ end] =>
        destruct o eqn:?; eff_unfold
    end.

(** The requests of a run, whatever the blob holds. *)
Lemma transcribe_requests (h : Host) (audioBlob : Blob) (prompt : jsstring)
      (st : Store) :
  requests (calls (transcribe h audioBlob prompt st)) =
    match readAsDataURL h audioBlob with
    | resolved dataUrl =>
        [[inlineData (lit "audio/webm") (nth_error (split_comma dataUrl) 1);
          text prompt]]
    | rejected _ => []
    end.
Proof. eff_run; reflexivity. Qed.

Lemma transcribeAndSave_requests (h : Host) (audioBlob : Blob)
      (prompt : jsstring) (st : Store) :
  requests (calls (transcribeAndSave h audioBlob prompt st)) =
    match readAsDataURL h audioBlob with
    | resolved dataUrl =>
        [[inlineData (lit "audio/webm") (nth_error (split_comma dataUrl) 1);
          text prompt]]
    | rejected _ => []
    end.
Proof. eff_run; reflexivity. Qed.

(** The notes of a run: one, at the path of the pending title, when the
    transcription is there. *)
Lemma transcribeAndSave_created (h : Host) (audioBlob : Blob)
      (prompt : jsstring) (st : Store) :
  created (calls (transcribeAndSave h audioBlob prompt st)) =
    match result (transcribe h audioBlob prompt st) with
    | Normal content =>
        [(filePath (currentTranscriptionTitle (plugin st)) (Date_now h),
          content)]
    | Throw _ => []
    end.
Proof. eff_run; reflexivity. Qed.

Lemma prefix_nil {A} (r : Run A) : prefix [] r = r.
Proof. now destruct r. Qed.

Lemma forEach_track_stop (s : MediaStream) (st : Store) :
  forEach s (fun track => call (call_track_stop track)) st
  = {| final := st; calls := map call_track_stop s; result := Normal tt |}.
Proof.
  induction s as [|t s IH]; [reflexivity|].
  simpl. unfold bind at 1. unfold call at 1. rewrite IH. reflexivity.
Qed.

Lemma track_stops_map (s : MediaStream) :
  track_stops (map call_track_stop s) = s.
Proof. induction s as [|t s IH]; simpl; congruence. Qed.

(** ** The claims on the pipeline *)

(** C1, as the specification words it, fails: on a run where the
    transcription and the save succeed the modal is given [transcribing]
    and [saving] and is then closed; [completed] is never set. *)
Lemma successful_run_is_not_completed :
  result (transcribe host_ok blob0 (lit "p") store0) = Normal (lit "hello")
  /\ created (calls (transcribeAndSave host_ok blob0 (lit "p") store0))
     = [(lit "transcriptions/Team- Meeting-Alex-.md", lit "hello")]
  /\ result (transcribeAndSave host_ok blob0 (lit "p") store0) = Normal tt
  /\ status_sequence (calls (transcribeAndSave host_ok blob0 (lit "p") store0))
     = [transcribing; saving]
  /\ status_sequence (calls (transcribeAndSave host_ok blob0 (lit "p") store0))
     <> [transcribing; saving; completed].
Proof. repeat split. discriminate. Qed.

Example failed_transcription_run :
  status_sequence
    (calls (transcribeAndSave host_no_service blob0 (lit "p") store0))
  = [transcribing; error]
  /\ currentTranscriptionTitle
       (plugin (final (transcribeAndSave host_no_service blob0 (lit "p") store0)))
     = Some (lit "Team: Meeting/Alex? ").
Proof. split; reflexivity. Qed.

Example failed_save_run :
  status_sequence (calls (transcribeAndSave host_no_save blob0 (lit "p") store0))
  = [transcribing; saving; error]
  /\ currentTranscriptionTitle
       (plugin (final (transcribeAndSave host_no_save blob0 (lit "p") store0)))
     = Some (lit "Team: Meeting/Alex? ").
Proof. split; reflexivity. Qed.

(** What is among the first [n] calls of a run, none of which is [y], is
    made before the first [y]. *)
Lemma In_before (x y : Call) (n : nat) (l before after : list Call) :
  l = before ++ y :: after ->
  ~ In y (firstn n l) -> In x (firstn n l) -> In x before.
Proof.
  revert l before. induction n as [|n IH]; intros l before Hl Hy Hx.
  - destruct Hx.
  - destruct l as [|a l]; [destruct Hx|].
    destruct before as [|b before]; cbn in Hl; injection Hl as -> Hl.
    + exfalso. apply Hy. now left.
    + destruct Hx as [->|Hx]; [now left|]. right.
      apply (IH l before Hl); [|exact Hx].
      intros H. apply Hy. now right.
Qed.

(** C1, amended: the statuses given to the progress modal are exactly
    [transcribing, error] when the transcription call fails and exactly
    [transcribing, saving, error] when the save fails; when both succeed
    they are [transcribing, saving], after which the modal is closed, with
    [error] added only when the new note cannot be opened.  [completed] is
    never given, and the modal is left in the last status of the
    sequence.  The modal is opened first; once the note is created it is
    closed, right after [saving] and before the note is opened, and it is
    left closed; when the transcription or the save fails it is not closed
    during the run but left open, with a timer of 1500 ms set to close
    it. *)
Theorem progress_status_sequence (h : Host) (audioBlob : Blob)
        (prompt : jsstring) (st : Store) :
  let r := transcribeAndSave h audioBlob prompt st in
  let path := filePath (currentTranscriptionTitle (plugin st)) (Date_now h) in
  status_sequence (calls r) =
    match result (transcribe h audioBlob prompt st) with
    | Throw _ => [transcribing; error]
    | Normal content =>
        match vault_create h path content with
        | rejected _ => [transcribing; saving; error]
        | resolved _ =>
            match workspace_openLinkText h path with
            | resolved _ => [transcribing; saving]
            | rejected _ => [transcribing; saving; error]
            end
        end
    end
  /\ ~ In completed (status_sequence (calls r))
  /\ option_map status (progress (final r))
     = Some (last (status_sequence (calls r)) transcribing)
  /\ progress_events (calls r) =
       match result (transcribe h audioBlob prompt st) with
       | Throw _ =>
           [progress_open; progress_updateStatus transcribing;
            progress_updateStatus error; call_setTimeout_close 1500]
       | Normal content =>
           match vault_create h path content with
           | rejected _ =>
               [progress_open; progress_updateStatus transcribing;
                progress_updateStatus saving;
                progress_updateStatus error; call_setTimeout_close 1500]
           | resolved _ =>
               match workspace_openLinkText h path with
               | resolved _ =>
                   [progress_open; progress_updateStatus transcribing;
                    progress_updateStatus saving; progress_close]
               | rejected _ =>
                   [progress_open; progress_updateStatus transcribing;
                    progress_updateStatus saving; progress_close;
                    progress_updateStatus error; call_setTimeout_close 1500]
               end
           end
       end
  /\ option_map shown (progress (final r)) =
       match result (transcribe h audioBlob prompt st) with
       | Throw _ => Some true
       | Normal content =>
           match vault_create h path content with
           | rejected _ => Some true
           | resolved _ => Some false
           end
       end
  /\ (forall before after : list Call,
        calls r = before ++ call_openLinkText path :: after ->
        In progress_close before).
Proof.
  cbv zeta. eff_run; cbn; (split; [reflexivity|]);
    (split; [intuition discriminate |]);
    (split; [reflexivity|]); (split; [reflexivity|]);
    (split; [reflexivity|]);
    intros before after Hcalls;
    first
      [ solve [ apply (In_before progress_close _ 11 _ _ _ Hcalls); cbn;
                [ intuition discriminate
                | repeat first [left; reflexivity | right] ] ]
      | exfalso;
        match type of Hcalls with
        | _ = ?b ++ ?y :: ?a =>
            assert (Hin : In y (b ++ y :: a)) by apply in_elt
        end;
        rewrite <- Hcalls in Hin; cbn in Hin; intuition discriminate ].
Qed.

(** The name falls back to the clock when there is no title to keep. *)
Lemma baseName_fallback (title : option jsstring) (now : Z) :
  title = None \/ title = Some []
  \/ (exists t, title = Some t /\ sanitizeFileName t = []) ->
  baseName title now = lit "transcription-" ++ number_to_string now.
Proof.
  intros [->|[->|(t & -> & Ht)]]; try reflexivity.
  unfold baseName. cbn [nullish].
  destruct (trim t) as [|c r] eqn:Htrim; [reflexivity|].
  cbn [truthy]. rewrite <- Htrim.
  assert (He : sanitizeFileName (trim t) = []).
  { apply sanitizeFileName_empty_iff. rewrite filter_not_ws_trim.
    now apply sanitizeFileName_empty_iff. }
  rewrite He. reflexivity.
Qed.

(** C5: when the pending title is absent, empty, or sanitizes to the empty
    string, the note of a run whose transcription is there is created at
    [transcriptions/transcription-<epoch-millis>.md]. *)
Theorem fallback_file_name (h : Host) (audioBlob : Blob) (prompt : jsstring)
        (st : Store) (content : jsstring) :
  let title := currentTranscriptionTitle (plugin st) in
  let fallback :=
    lit "transcriptions/transcription-" ++ number_to_string (Date_now h)
      ++ lit ".md" in
  title = None \/ title = Some []
  \/ (exists t, title = Some t /\ sanitizeFileName t = []) ->
  result (transcribe h audioBlob prompt st) = Normal content ->
  filePath title (Date_now h) = fallback
  /\ created (calls (transcribeAndSave h audioBlob prompt st))
     = [(fallback, content)].
Proof.
  cbv zeta. intros Htitle Hok.
  assert (Hpath : filePath (currentTranscriptionTitle (plugin st)) (Date_now h)
                  = lit "transcriptions/transcription-"
                      ++ number_to_string (Date_now h) ++ lit ".md").
  { unfold filePath. rewrite (baseName_fallback _ _ Htitle).
    unfold folderPath. rewrite <- !app_assoc. reflexivity. }
  split; [exact Hpath|].
  rewrite transcribeAndSave_created, Hok, Hpath. reflexivity.
Qed.

Lemma fallback_file_name_witness :
  sanitizeFileName (lit " . ") = []
  /\ created (calls (transcribeAndSave host_ok blob0 (lit "p")
                       {| plugin := set_currentTranscriptionTitle
                                      (Some (lit " . ")) plugin0;
                          progress := None |}))
     = [(lit "transcriptions/transcription-1700000000123.md", lit "hello")].
Proof.
  split; [reflexivity|].
  refine (proj2 (fallback_file_name host_ok blob0 (lit "p")
                   {| plugin := set_currentTranscriptionTitle
                                  (Some (lit " . ")) plugin0;
                      progress := None |} (lit "hello") _ _)).
  - right. right. exists (lit " . "). split; reflexivity.
  - reflexivity.
Defined.

(** The call of the caller is not a request, so a run that is not awaited
    sends the requests of the run. *)
Lemma requests_after_first_await (k : ModalKind) (l : list Call) :
  requests (after_first_await (modal_close k) l) = requests l.
Proof.
  induction l as [|c l IH]; [reflexivity|].
  cbn [after_first_await]. destruct (is_awaited c).
  - reflexivity.
  - unfold requests in *. cbn [flat_map]. rewrite IH. reflexivity.
Qed.

Lemma not_awaited_requests {A : Type} (c : Eff A) (k : ModalKind) (st : Store) :
  requests (calls (not_awaited c (modal_close k) st)) = requests (calls (c st)).
Proof.
  unfold not_awaited. destruct (c st) as [st' l res]. cbn [calls].
  apply requests_after_first_await.
Qed.

(** [transcribeAndSave] is first suspended when the reading of the blob has
    been started: a caller that does not await it goes on there, before
    any request is sent. *)
Lemma not_awaited_transcribeAndSave_start (h : Host) (audioBlob : Blob)
      (prompt : jsstring) (x : Call) (st : Store) :
  firstn 6 (calls (not_awaited (transcribeAndSave h audioBlob prompt) x st))
  = [progress_open;
     progress_updateContent (lit "Transcribing your audio...");
     progress_updateStatus transcribing;
     progress_updateContent (lit "Transcribing your audio...");
     call_readAsDataURL audioBlob;
     x].
Proof. unfold not_awaited. eff_run; reflexivity. Qed.


Example select_simple_run :
  calls (select host_ok blob0 0 store0)
  = [progress_open;
     progress_updateContent (lit "Transcribing your audio...");
     progress_updateStatus transcribing;
     progress_updateContent (lit "Transcribing your audio...");
     call_readAsDataURL blob0;
     modal_close TranscriptionTypeModal;
     call_generateContent (lit "k") (lit "gemini-1.5-flash")
       [inlineData (lit "audio/webm") (Some []);
        text (lit "Transcribe the audio.")];
     progress_updateStatus saving;
     progress_updateContent (lit "Saving transcription...");
     call_createFolder (lit "transcriptions");
     call_create (lit "transcriptions/Team- Meeting-Alex-.md") (lit "hello");
     progress_close;
     call_openLinkText (lit "transcriptions/Team- Meeting-Alex-.md")]
  /\ result (select host_ok blob0 0 store0) = Normal tt.
Proof. split; reflexivity. Qed.

(** C7: the pending title is set to [null] exactly when the note has been
    created; when the transcription call or the creation of the note fails
    it is left as it was, and the next run takes the path of its note from
    the title that is left. *)
Theorem pending_title_cleared_on_success (h : Host) (audioBlob : Blob)
        (prompt : jsstring) (st : Store) :
  let r := transcribeAndSave h audioBlob prompt st in
  let title := currentTranscriptionTitle (plugin st) in
  currentTranscriptionTitle (plugin (final r)) =
    match result (transcribe h audioBlob prompt st) with
    | Throw _ => title
    | Normal content =>
        match vault_create h (filePath title (Date_now h)) content with
        | resolved _ => None
        | rejected _ => title
        end
    end
  /\ forall (h' : Host) (audioBlob' : Blob) (prompt' : jsstring),
       created (calls (transcribeAndSave h' audioBlob' prompt' (final r))) =
         match result (transcribe h' audioBlob' prompt' (final r)) with
         | Normal content =>
             [(filePath (currentTranscriptionTitle (plugin (final r)))
                 (Date_now h'), content)]
         | Throw _ => []
         end.
Proof.
  cbv zeta. split.
  - eff_run; reflexivity.
  - intros. apply transcribeAndSave_created.
Qed.

(** C8: [stopRecording] does nothing when no capture is active; and when
    a stream is held it stops each of its tracks and sets the field to
    [null], whatever the recorder and the rest of the plugin are.  The
    recorder itself is stopped only when it records or pauses. *)
Theorem stopRecording_releases_the_stream (st : Store) :
  let r := stopRecording st in
  (capture_active (plugin st) = false ->
   r = {| final := st; calls := []; result := Normal tt |})
  /\ (forall s : MediaStream,
        stream (plugin st) = Some s ->
        result r = Normal tt
        /\ stream (plugin (final r)) = None
        /\ track_stops (calls r) = s)
  /\ (recorder_running (plugin st) = false ->
      ~ In call_recorder_stop (calls r)
      /\ mediaRecorder (plugin (final r)) = mediaRecorder (plugin st)).
Proof.
  cbv zeta. destruct st as [p pr]. destruct p as [se mr ch str ti].
  unfold capture_active, recorder_running. cbn [plugin mediaRecorder stream].
  split; [|split].
  - intros H. apply orb_false_iff in H as [Hrec Hstr].
    destruct str; [discriminate|].
    destruct mr as [[rs [| |] ls]|]; try discriminate; reflexivity.
  - intros s ->. unfold stopRecording.
    destruct mr as [[rs [| |] ls]|]; eff_unfold; cbn;
      rewrite forEach_track_stop; cbn; rewrite ?app_nil_r;
      (repeat split; apply track_stops_map).
  - intros Hrec. unfold stopRecording.
    destruct mr as [[rs [| |] ls]|]; try discriminate;
      (destruct str as [s|]; eff_unfold; cbn;
       [rewrite forEach_track_stop; cbn; rewrite app_nil_r|];
       (split; [|reflexivity])).
    + intros Hin. apply in_map_iff in Hin as (t & Ht & _). discriminate Ht.
    + intros [].
    + intros Hin. apply in_map_iff in Hin as (t & Ht & _). discriminate Ht.
    + intros [].
Qed.

Lemma stopRecording_releases_the_stream_witness :
  stopRecording store0 = {| final := store0; calls := []; result := Normal tt |}
  /\ track_stops
       (calls (stopRecording
                 {| plugin := set_stream (Some stream0) plugin0;
                    progress := None |}))
     = stream0
  /\ ~ In call_recorder_stop (calls (stopRecording store0)).
Proof.
  pose proof (stopRecording_releases_the_stream store0) as (Hnoop & _ & Hrec).
  pose proof (stopRecording_releases_the_stream
                {| plugin := set_stream (Some stream0) plugin0;
                   progress := None |}) as (_ & Hstream & _).
  split; [exact (Hnoop eq_refl)|].
  split; [exact (proj2 (proj2 (Hstream stream0 eq_refl)))|].
  exact (proj1 (Hrec eq_refl)).
Defined.

Lemma initRecording_ok (h : Host) (st : Store) (s : MediaStream) :
  truthy (geminiApiKey (settings (plugin st))) = true ->
  getUserMedia h = resolved s ->
  MediaRecorder_new h s = resolved tt ->
  initRecording h st =
    {| final :=
         {| plugin :=
              {| settings := settings (plugin st);
                 mediaRecorder :=
                   Some {| rec_stream := s; state := inactive;
                           listeners := [push_chunk; open_type_modal] |};
                 audioChunks := [];
                 stream := Some s;
                 currentTranscriptionTitle :=
                   currentTranscriptionTitle (plugin st) |};
            progress := progress st |};
       calls := [call_getUserMedia; call_MediaRecorder_new s];
       result := Normal true |}.
Proof.
  intros Hkey Hmedia Hrec.
  unfold initRecording, try_catch, bind, this. cbn.
  rewrite Hkey, Hmedia. cbn. rewrite Hrec. reflexivity.
Qed.

(** C9: a recording that is stopped before any [dataavailable] event
    gives a blob of size zero, and that blob is sent like any other:
    [transcribe] and [transcribeAndSave] send the request for every blob
    the reader reads, whatever its size. *)
Theorem empty_capture_is_still_sent (h : Host) (st : Store)
        (s : MediaStream) (prompt : jsstring) :
  truthy (geminiApiKey (settings (plugin st))) = true ->
  getUserMedia h = resolved s ->
  MediaRecorder_new h s = resolved tt ->
  let capture :=
    (initRecording h ;; start ;; stopRecording ;; dispatchEvent stop) st in
  let audioBlob := new_Blob [] (lit "audio/webm") in
  size audioBlob = 0
  /\ result capture = Normal tt
  /\ last (calls capture) call_getUserMedia = modal_open_type audioBlob
  /\ (forall (b : Blob) (st' : Store) (dataUrl : jsstring),
        readAsDataURL h b = resolved dataUrl ->
        let request :=
          [inlineData (lit "audio/webm") (nth_error (split_comma dataUrl) 1);
           text prompt] in
        requests (calls (transcribe h b prompt st')) = [request]
        /\ requests (calls (transcribeAndSave h b prompt st')) = [request]).
Proof.
  cbv zeta. intros Hkey Hmedia Hrec.
  split; [reflexivity|].
  assert (Hrun : (initRecording h ;; start ;; stopRecording ;; dispatchEvent stop) st
          = {| final :=
                 {| plugin :=
                      {| settings := settings (plugin st);
                         mediaRecorder :=
                           Some {| rec_stream := s; state := inactive;
                                   listeners := [push_chunk; open_type_modal] |};
                         audioChunks := [];
                         stream := None;
                         currentTranscriptionTitle :=
                           currentTranscriptionTitle (plugin st) |};
                    progress := progress st |};
               calls := [call_getUserMedia; call_MediaRecorder_new s;
                         call_recorder_start; call_recorder_stop]
                          ++ map call_track_stop s
                          ++ [modal_open_type (new_Blob [] (lit "audio/webm"))];
               result := Normal tt |}).
  { unfold bind at 1. rewrite (initRecording_ok h st s Hkey Hmedia Hrec).
    unfold bind at 1. cbn. unfold stopRecording, bind. cbn.
    rewrite forEach_track_stop. cbn. now rewrite app_nil_r. }
  rewrite Hrun. cbn [result calls].
  split; [reflexivity|]. split.
  - rewrite app_assoc. apply last_last.
  - intros b st' dataUrl Hread.
    rewrite transcribe_requests, transcribeAndSave_requests, Hread.
    split; reflexivity.
Qed.

Lemma empty_capture_is_still_sent_witness :
  last (calls ((initRecording host_ok ;; start ;; stopRecording ;;
                dispatchEvent stop) store0)) call_getUserMedia
  = modal_open_type blob0
  /\ requests (calls (transcribeAndSave host_ok blob0 (lit "p") store0))
     = [[inlineData (lit "audio/webm") (Some []); text (lit "p")]].
Proof.
  pose proof (empty_capture_is_still_sent host_ok store0 stream0 (lit "p")
                eq_refl eq_refl eq_refl) as (_ & _ & Hlast & Hsent).
  split; [exact Hlast|].
  exact (proj2 (Hsent blob0 store0 (lit "data:audio/webm;base64,") eq_refl)).
Defined.

(** C10: with an empty API key [initRecording] returns [false] after a
    notice; it does not ask for the microphone and leaves the plugin as it
    was, so no recorder is created, and the Start Recording button closes
    its modal without starting anything. *)
Theorem initRecording_without_key (h : Host) (st : Store) :
  geminiApiKey (settings (plugin st)) = [] ->
  let notice :=
    Notice (lit "Please set your Gemini API key in the settings.") in
  initRecording h st
  = {| final := st; calls := [notice]; result := Normal false |}
  /\ existsb asks_for_microphone (calls (initRecording h st)) = false
  /\ mediaRecorder (plugin (final (initRecording h st)))
     = mediaRecorder (plugin st)
  /\ startButton_click h st
     = {| final := st; calls := [notice; modal_close RecordingModal];
          result := Normal tt |}.
Proof.
  intros Hkey. cbv zeta.
  assert (Hinit : initRecording h st
                  = {| final := st;
                       calls := [Notice (lit "Please set your Gemini API key in the settings.")];
                       result := Normal false |}).
  { unfold initRecording, bind at 1, this. cbn. rewrite Hkey. reflexivity. }
  split; [exact Hinit|]. rewrite Hinit. repeat split.
  unfold startButton_click, bind. rewrite Hinit. reflexivity.
Qed.

Lemma initRecording_without_key_witness :
  initRecording host_ok store_no_key
  = {| final := store_no_key;
       calls := [Notice (lit "Please set your Gemini API key in the settings.")];
       result := Normal false |}
  /\ startButton_click host_ok store_no_key
     = {| final := store_no_key;
          calls := [Notice (lit "Please set your Gemini API key in the settings.");
                    modal_close RecordingModal];
          result := Normal tt |}.
Proof.
  pose proof (initRecording_without_key host_ok store_no_key eq_refl)
    as (Hinit & _ & _ & Hclick).
  split; [exact Hinit | exact Hclick].
Defined.

(** * Further properties *)

(** ** More on [sanitizeFileName] *)

Lemma drop_end_keep (p : char16 -> bool) (c : char16) (s : jsstring) :
  p c = false -> drop_end p (c :: s) = c :: drop_end p s.
Proof.
  intros Hc. rewrite drop_end_cons, Hc. now destruct (drop_end p s).
Qed.

Lemma drop_end_idem (p : char16 -> bool) (s : jsstring) :
  drop_end p (drop_end p s) = drop_end p s.
Proof. apply drop_end_fixed, drop_end_last. Qed.

Lemma collapse_nil (s : jsstring) :
  (collapse s = [] -> s = [])
  /\ (collapse_in s = [] -> forallb is_ws s = true).
Proof.
  induction s as [|c s [IH1 IH2]]; simpl; [easy|].
  destruct (is_ws c); simpl; split; try discriminate. exact IH2.
Qed.

Lemma drop_while_collapse (s : jsstring) :
  drop_while is_ws (collapse s) = collapse (drop_while is_ws s)
  /\ drop_while is_ws (collapse_in s) = collapse (drop_while is_ws s).
Proof.
  induction s as [|c s [IH1 IH2]]; simpl; [easy|].
  destruct (is_ws c) eqn:Hc; simpl; rewrite ?Hc; auto.
Qed.

Lemma collapse_ws (c : char16) (s : jsstring) :
  is_ws c = true ->
  collapse (c :: s) = space :: collapse_in s
  /\ collapse_in (c :: s) = collapse_in s.
Proof. intros Hc. simpl. now rewrite Hc. Qed.

Lemma collapse_not_ws (c : char16) (s : jsstring) :
  is_ws c = false ->
  collapse (c :: s) = c :: collapse s
  /\ collapse_in (c :: s) = c :: collapse s.
Proof. intros Hc. simpl. now rewrite Hc. Qed.

Lemma drop_end_collapse (s : jsstring) :
  drop_end is_ws (collapse s) = collapse (drop_end is_ws s)
  /\ drop_end is_ws (collapse_in s) = collapse_in (drop_end is_ws s).
Proof.
  induction s as [|c s [IH1 IH2]]; [easy|].
  destruct (is_ws c) eqn:Hc.
  - destruct (collapse_ws c s Hc) as [-> ->].
    rewrite (drop_end_cons is_ws c s), Hc.
    rewrite (drop_end_cons is_ws space (collapse_in s)), IH2.
    destruct (drop_end is_ws s) as [|d r] eqn:Hd; [split; reflexivity|].
    destruct (collapse_ws c (d :: r) Hc) as [-> ->].
    split; [|reflexivity].
    destruct (collapse_in (d :: r)) eqn:He; [|reflexivity].
    exfalso. apply collapse_nil in He. rewrite <- Hd in He.
    apply drop_end_nil_iff in He. rewrite drop_end_idem in He. congruence.
  - destruct (collapse_not_ws c s Hc) as [-> ->].
    rewrite !drop_end_keep, IH1 by assumption.
    destruct (collapse_not_ws c (drop_end is_ws s) Hc) as [-> ->]. auto.
Qed.

Lemma trim_collapse (s : jsstring) : trim (collapse s) = collapse (trim s).
Proof.
  unfold trim. destruct (drop_while_collapse s) as [-> _].
  now destruct (drop_end_collapse (drop_while is_ws s)) as [-> _].
Qed.

Lemma trim_idem (s : jsstring) : trim (trim s) = trim s.
Proof.
  unfold trim at 1. rewrite drop_while_fixed.
  - apply drop_end_idem.
  - apply starts_clean_drop_end, starts_clean_drop_while.
Qed.

Lemma is_ws_dashed (c : char16) :
  is_ws (if is_forbidden c then dash else c) = is_ws c.
Proof.
  destruct (is_forbidden c) eqn:Hf; [|reflexivity].
  now rewrite (forbidden_not_ws _ Hf).
Qed.

Lemma drop_while_map (f : char16 -> char16) (s : jsstring) :
  (forall c, is_ws (f c) = is_ws c) ->
  drop_while is_ws (map f s) = map f (drop_while is_ws s).
Proof.
  intros Hf. induction s as [|c s IH]; [reflexivity|].
  simpl. rewrite Hf. now destruct (is_ws c).
Qed.

Lemma trim_dashes (s : jsstring) : trim (dashes s) = dashes (trim s).
Proof.
  rewrite !dashes_map. unfold trim, drop_end.
  rewrite (drop_while_map _ s is_ws_dashed), <- map_rev.
  rewrite (drop_while_map _ _ is_ws_dashed). now rewrite map_rev.
Qed.

Lemma sanitize_after_trim (s : jsstring) :
  sanitizeFileName (trim s) = sanitizeFileName s.
Proof.
  rewrite !sanitizeFileName_stages.
  now rewrite <- trim_dashes, <- trim_collapse, trim_idem.
Qed.

(** X1: trimming a title first does not change its sanitized name, so the
    [trim] of [transcribeAndSave] before [sanitizeFileName] only decides
    between a title and no title. *)
Theorem sanitizeFileName_trim (s : jsstring) :
  sanitizeFileName (trim s) = sanitizeFileName s.
Proof. apply sanitize_after_trim. Qed.

(** X2: the sanitized name is empty exactly when the input holds nothing
    but whitespace and dots. *)
Theorem sanitizeFileName_empty_only_for_dots (s : jsstring) :
  sanitizeFileName s = []
  <-> forall c, In c s -> is_ws c = true \/ c = dot.
Proof.
  rewrite sanitizeFileName_empty_iff, forallb_forall. split.
  - intros H c Hin. destruct (is_ws c) eqn:Hws; [now left|right].
    apply N.eqb_eq. apply (H c). apply filter_In. split; [exact Hin|].
    unfold not_ws. now rewrite Hws.
  - intros H c Hin. apply filter_In in Hin as [Hin Hws].
    destruct (H c Hin) as [Hc| ->]; [|reflexivity].
    unfold not_ws in Hws. now rewrite Hc in Hws.
Qed.

(** X3: the names [sanitizeFileName] leaves as they are, are exactly those
    without a forbidden character, with whitespace only as single spaces,
    none of them first or last, and without a dot at the end. *)
Theorem sanitizeFileName_fixed_points (s : jsstring) :
  sanitizeFileName s = s
  <-> no_forbidden s = true /\ single_spaced false s = true
      /\ starts_clean s = true /\ ends_clean s = true.
Proof.
  split.
  - intros He. pose proof (sanitizeFileName_shape s) as H.
    cbv zeta in H. now rewrite He in H.
  - intros (Hnf & Hss & Hsc & Hec). now apply sanitizeFileName_fixed.
Qed.

Lemma collapse_length (s : jsstring) :
  (List.length (collapse s) <= List.length s)%nat
  /\ (List.length (collapse_in s) <= List.length s)%nat.
Proof.
  induction s as [|c s [IH1 IH2]]; simpl; [lia|].
  destruct (is_ws c); simpl; lia.
Qed.

Lemma drop_while_length (p : char16 -> bool) (s : jsstring) :
  (List.length (drop_while p s) <= List.length s)%nat.
Proof.
  induction s as [|c s IH]; simpl; [lia|]. destruct (p c); simpl; lia.
Qed.

(** A sanitized name is never longer than the input. *)
Theorem sanitizeFileName_length (s : jsstring) :
  (List.length (sanitizeFileName s) <= List.length s)%nat.
Proof.
  rewrite sanitizeFileName_stages. unfold trim.
  pose proof (drop_end_length is_space_or_dot
                (drop_end is_ws (drop_while is_ws (collapse (dashes s))))).
  pose proof (drop_end_length is_ws (drop_while is_ws (collapse (dashes s)))).
  pose proof (drop_while_length is_ws (collapse (dashes s))).
  pose proof (proj1 (collapse_length (dashes s))).
  assert (List.length (dashes s) = List.length s)
    by (rewrite dashes_map; apply length_map).
  lia.
Qed.

(** ** More on the path of the note *)

Lemma no_forbidden_uint (u : Decimal.uint) :
  no_forbidden (lit (NilEmpty.string_of_uint u)) = true.
Proof. induction u; simpl; auto. Qed.

Lemma no_forbidden_number (n : Z) : no_forbidden (number_to_string n) = true.
Proof.
  unfold number_to_string. destruct (Z.to_int n) as [u|u]; simpl.
  - apply no_forbidden_uint.
  - apply no_forbidden_uint.
Qed.

(** X4: whatever the pending title and the clock are, the base name of the
    note is not empty and holds none of the nine forbidden characters, so
    the note always lies directly in the transcriptions folder. *)
Theorem baseName_is_a_file_name (title : option jsstring) (now : Z) :
  baseName title now <> []
  /\ no_forbidden (baseName title now) = true
  /\ filePath title now
     = lit "transcriptions/" ++ baseName title now ++ lit ".md".
Proof.
  assert (Hfallback :
            lit "transcription-" ++ number_to_string now <> []
            /\ no_forbidden (lit "transcription-" ++ number_to_string now) = true).
  { split; [discriminate|].
    unfold no_forbidden. rewrite forallb_app. apply andb_true_iff.
    split; [reflexivity | apply no_forbidden_number]. }
  split; [|split].
  - unfold baseName.
    destruct (truthy (trim (nullish title []))); [|apply Hfallback].
    destruct (sanitizeFileName (trim (nullish title []))) eqn:He;
      [apply Hfallback | discriminate].
  - unfold baseName.
    destruct (truthy (trim (nullish title []))); [|apply Hfallback].
    pose proof (sanitizeFileName_shape (trim (nullish title []))) as Hs.
    cbv zeta in Hs.
    destruct (sanitizeFileName (trim (nullish title []))) eqn:He;
      [apply Hfallback | apply Hs].
  - reflexivity.
Qed.

(** X5: a title whose sanitized name is not empty names the note, whatever
    the clock is: two runs with the same title ask for the same path. *)
Theorem titled_file_path (t : jsstring) (now : Z) :
  sanitizeFileName t <> [] ->
  filePath (Some t) now
  = lit "transcriptions/" ++ sanitizeFileName t ++ lit ".md".
Proof.
  intros Hne. unfold filePath, baseName. cbn [nullish].
  destruct (trim t) as [|c r] eqn:Htrim.
  - exfalso. apply Hne. rewrite <- sanitize_after_trim, Htrim. reflexivity.
  - cbn [truthy]. rewrite <- Htrim, sanitize_after_trim.
    destruct (sanitizeFileName t); [contradiction|reflexivity].
Qed.

Lemma titled_file_path_witness :
  filePath (Some (lit "  Plan: Q3 .  ")) 1 = lit "transcriptions/Plan- Q3.md"
  /\ filePath (Some (lit "  Plan: Q3 .  ")) 2 = lit "transcriptions/Plan- Q3.md".
Proof.
  split.
  - apply (titled_file_path (lit "  Plan: Q3 .  ") 1). discriminate.
  - apply (titled_file_path (lit "  Plan: Q3 .  ") 2). discriminate.
Defined.

(** ** More on [transcribeAndSave] *)

Ltac host_fields :=
  cbn [with_createFolder getUserMedia MediaRecorder_new readAsDataURL
       generateContent vault_createFolder vault_create
       workspace_openLinkText Date_now].

(** X6: [transcribeAndSave] never throws: every failure of the reader, of
    the service, of the vault or of the workspace ends in its own [catch]. *)
Theorem transcribeAndSave_never_throws (h : Host) (audioBlob : Blob)
        (prompt : jsstring) (st : Store) :
  result (transcribeAndSave h audioBlob prompt st) = Normal tt.
Proof.
  eff_run; repeat match goal with u : unit |- _ => destruct u end;
    reflexivity.
Qed.

(** X7: the answer of [createFolder] makes no difference to a run: whether
    the folder is created, exists already or cannot be created, the same
    calls are made and the plugin ends in the same state. *)
Theorem createFolder_failure_is_ignored (f : jsstring -> outcome unit)
        (h : Host) (audioBlob : Blob) (prompt : jsstring) (st : Store) :
  transcribeAndSave (with_createFolder f h) audioBlob prompt st
  = transcribeAndSave h audioBlob prompt st.
Proof.
  eff_unfold. host_fields.
  repeat match goal with
    | |- context [match ?o with resolved _ => _ | rejected _ => _ end] =>
        destruct o eqn:?; eff_unfold; host_fields
    end; reflexivity.
Qed.

(** X8: a run reports a failure exactly once: when the transcription, the
    creation of the note or its opening fails, one notice carries the
    message of the error after "Error during transcription: " and one
    timeout of 1500 ms is set to close the progress modal; a run that ends
    well shows no notice and sets no timeout. *)
Theorem failure_is_reported_once (h : Host) (audioBlob : Blob)
        (prompt : jsstring) (st : Store) :
  let r := transcribeAndSave h audioBlob prompt st in
  match ending h audioBlob prompt st with
  | saved_and_opened => notices (calls r) = [] /\ timeouts (calls r) = []
  | failed e =>
      notices (calls r) = [lit "Error during transcription: " ++ show_message e]
      /\ timeouts (calls r) = [1500%N]
  end.
Proof. cbv zeta. unfold ending. eff_run; split; reflexivity. Qed.

(** X9: the workspace is asked to open a note only after the vault has
    created it, and then at the path it was created at. *)
Theorem opens_only_what_was_created (h : Host) (audioBlob : Blob)
        (prompt : jsstring) (st : Store) :
  let r := transcribeAndSave h audioBlob prompt st in
  let path := filePath (currentTranscriptionTitle (plugin st)) (Date_now h) in
  opened (calls r) =
    match result (transcribe h audioBlob prompt st) with
    | Throw _ => []
    | Normal content =>
        match vault_create h path content with
        | resolved _ => [path]
        | rejected _ => []
        end
    end
  /\ incl (opened (calls r)) (map fst (created (calls r))).
Proof.
  cbv zeta. eff_run; (split; [reflexivity|]); cbn;
    auto using incl_nil_l, incl_refl.
Qed.

(** ** More on the recording *)

Ltac eff_unfold' :=
  cbv beta iota zeta delta
    [transcribeAndSave transcribe blobToBase64 initRecording start
     stopRecording dispatchEvent run_listener startButton_click select
     TranscriptionTypeModal_onOpen type_row onClick addEventListener
     TranscriptionProgressModal_new progress_open_ progress_close_
     updateStatus updateContent update_progress prefix
     input_onchange titleInput_oninput titleInput_value
     bind try_catch ret throw call this update await
     final calls result plugin progress option_map].

Ltac eff_run' :=
  eff_unfold';
  repeat match goal with
    | |- context [match ?o with resolved _ => _ | rejected _ => _ end] =>
        destruct o eqn:?; eff_unfold'
    end.

Ltac plugin_fields :=
  cbn [set_currentTranscriptionTitle set_stream set_mediaRecorder
       set_audioChunks settings mediaRecorder audioChunks stream
       currentTranscriptionTitle].

(** X10: [initRecording] never throws.  It returns [true] exactly when the
    key is set, the microphone is granted and the recorder is built; in
    every other case the recorder and the chunks of the plugin are left as
    they were. *)
Theorem initRecording_result (h : Host) (st : Store) :
  let r := initRecording h st in
  let ok :=
    truthy (geminiApiKey (settings (plugin st)))
    && match getUserMedia h with
       | resolved s =>
           match MediaRecorder_new h s with
           | resolved _ => true
           | rejected _ => false
           end
       | rejected _ => false
       end in
  result r = Normal ok
  /\ (ok = false ->
      mediaRecorder (plugin (final r)) = mediaRecorder (plugin st)
      /\ audioChunks (plugin (final r)) = audioChunks (plugin st)).
Proof.
  cbv zeta. destruct st as [p pr]. cbn [plugin].
  unfold initRecording, try_catch, bind, this. cbn.
  destruct (truthy (geminiApiKey (settings p))); cbn; [|auto].
  destruct (getUserMedia h) as [s|e]; cbn; [|auto].
  destruct (MediaRecorder_new h s) as [[]|e]; cbn; [|auto].
  split; [reflexivity|discriminate].
Qed.

(** X11: when the microphone is refused, [initRecording] shows the message
    of the error after "Error initializing recording: ", returns [false]
    and leaves the plugin as it was. *)
Theorem microphone_refused (h : Host) (st : Store) (e : Thrown) :
  truthy (geminiApiKey (settings (plugin st))) = true ->
  getUserMedia h = rejected e ->
  initRecording h st
  = {| final := st;
       calls := [call_getUserMedia;
                 Notice (lit "Error initializing recording: " ++ show_message e)];
       result := Normal false |}.
Proof.
  intros Hkey Hmedia. destruct st as [p pr]. cbn [plugin] in Hkey.
  unfold initRecording, try_catch, bind, this. cbn.
  rewrite Hkey, Hmedia. reflexivity.
Qed.

(** X12: when the microphone is granted but the recorder cannot be built,
    [initRecording] returns [false] with the stream stored and none of its
    tracks stopped; the Start Recording button then closes its modal, and
    the stream stays held. *)
Theorem stream_held_without_recorder (h : Host) (st : Store)
        (s : MediaStream) (e : Thrown) :
  truthy (geminiApiKey (settings (plugin st))) = true ->
  getUserMedia h = resolved s ->
  MediaRecorder_new h s = rejected e ->
  let r := startButton_click h st in
  calls r = [call_getUserMedia; call_MediaRecorder_new s;
             Notice (lit "Error initializing recording: " ++ show_message e);
             modal_close RecordingModal]
  /\ stream (plugin (final r)) = Some s
  /\ mediaRecorder (plugin (final r)) = mediaRecorder (plugin st)
  /\ track_stops (calls r) = []
  /\ capture_active (plugin (final r)) = true.
Proof.
  cbv zeta. intros Hkey Hmedia Hrec. destruct st as [p pr].
  cbn [plugin] in Hkey.
  unfold startButton_click, initRecording, try_catch, bind, this. cbn.
  rewrite Hkey, Hmedia. cbn. rewrite Hrec. cbn.
  repeat split. unfold capture_active. cbn. apply orb_true_r.
Qed.

Lemma microphone_refused_witness :
  initRecording host_no_microphone store0
  = {| final := store0;
       calls := [call_getUserMedia;
                 Notice (lit "Error initializing recording: Permission denied")];
       result := Normal false |}.
Proof.
  apply (microphone_refused host_no_microphone store0
           (failure "Permission denied")); reflexivity.
Defined.

Lemma stream_held_without_recorder_witness :
  stream (plugin (final (startButton_click host_no_recorder store0)))
  = Some stream0
  /\ track_stops (calls (startButton_click host_no_recorder store0)) = [].
Proof.
  pose proof (stream_held_without_recorder host_no_recorder store0 stream0
                (failure "NotSupportedError") eq_refl eq_refl eq_refl)
    as (_ & Hstream & _ & Hstops & _).
  split; [exact Hstream | exact Hstops].
Defined.

Lemma fire_chunks (ds : list Blob) (p : AiNotes)
      (pr : option TranscriptionProgressModal) (r : MediaRecorder) :
  mediaRecorder p = Some r ->
  listeners r = [push_chunk; open_type_modal] ->
  fire (map dataavailable ds) {| plugin := p; progress := pr |}
  = {| final := {| plugin := set_audioChunks (audioChunks p ++ ds) p;
                   progress := pr |};
       calls := [];
       result := Normal tt |}.
Proof.
  revert p. induction ds as [|d ds IH]; intros p Hrec Hls.
  - cbn. rewrite app_nil_r. now destruct p.
  - unfold fire in *. cbn [map forEach]. unfold bind at 1.
    unfold dispatchEvent at 1, bind at 1, this. cbn. rewrite Hrec, Hls. cbn.
    rewrite (IH (set_audioChunks (audioChunks p ++ [d]) p)) by assumption.
    cbn. now rewrite <- app_assoc.
Qed.

Lemma fire_stop (p : AiNotes) (pr : option TranscriptionProgressModal)
      (r : MediaRecorder) :
  mediaRecorder p = Some r ->
  listeners r = [push_chunk; open_type_modal] ->
  fire [stop] {| plugin := p; progress := pr |}
  = {| final := {| plugin := p; progress := pr |};
       calls := [modal_open_type (new_Blob (audioChunks p) (lit "audio/webm"))];
       result := Normal tt |}.
Proof.
  intros Hrec Hls. unfold fire. cbn [forEach]. unfold bind at 1.
  unfold dispatchEvent at 1, bind at 1, this. cbn. rewrite Hrec, Hls.
  reflexivity.
Qed.

Lemma type_modals_track_stops (s : MediaStream) (l : list Call) :
  type_modals (map call_track_stop s ++ l) = type_modals l.
Proof. induction s as [|t s IH]; [reflexivity | exact IH]. Qed.

(** X13: a recording gives one blob of type audio/webm whose bytes are
    those of the chunks received since [initRecording], in the order of
    their [dataavailable] events, before or after [stopRecording]; chunks
    of an earlier recording are not part of it. *)
Theorem recording_is_the_chunks_in_order (h : Host) (st : Store)
        (s : MediaStream) (before after : list Blob) :
  truthy (geminiApiKey (settings (plugin st))) = true ->
  getUserMedia h = resolved s ->
  MediaRecorder_new h s = resolved tt ->
  let r := (initRecording h ;; start ;;
            fire (map dataavailable before) ;;
            stopRecording ;;
            fire (map dataavailable after) ;;
            fire [stop]) st in
  result r = Normal tt
  /\ type_modals (calls r)
     = [ {| blob_bytes := flat_map blob_bytes (before ++ after);
            blob_type := lit "audio/webm" |} ].
Proof.
  cbv zeta. intros Hkey Hmedia Hrec. destruct st as [p pr].
  match goal with |- result ?run = _ /\ _ => remember run as r eqn:Hr end.
  unfold bind at 1 in Hr.
  rewrite (initRecording_ok h _ s Hkey Hmedia Hrec) in Hr.
  unfold bind at 1 in Hr. cbn in Hr.
  unfold bind at 1 in Hr. erewrite fire_chunks in Hr by reflexivity.
  cbn in Hr.
  unfold bind at 1, stopRecording, bind in Hr. cbn in Hr.
  rewrite forEach_track_stop in Hr. cbn in Hr.
  erewrite fire_chunks in Hr by reflexivity. cbn in Hr.
  subst r. cbn [result calls]. split; [reflexivity|].
  rewrite app_nil_r.
  change (call_recorder_start :: call_recorder_stop
            :: map call_track_stop s ++ ?l)
    with ([call_recorder_start; call_recorder_stop]
            ++ map call_track_stop s ++ l).
  change (type_modals
            ([call_recorder_start; call_recorder_stop]
               ++ map call_track_stop s
               ++ [modal_open_type
                     (new_Blob (before ++ after) (lit "audio/webm"))])
          = [new_Blob (before ++ after) (lit "audio/webm")]).
  cbn [app]. apply (type_modals_track_stops s).
Qed.

Lemma recording_is_the_chunks_in_order_witness :
  type_modals
    (calls ((initRecording host_ok ;; start ;;
             fire (map dataavailable [chunk [1; 2]%N]) ;;
             stopRecording ;;
             fire (map dataavailable [chunk [3]%N]) ;;
             fire [stop])
              {| plugin := set_audioChunks [chunk [9]%N] plugin0;
                 progress := None |}))
  = [chunk [1; 2; 3]%N].
Proof.
  apply (proj2 (recording_is_the_chunks_in_order host_ok
                  {| plugin := set_audioChunks [chunk [9]%N] plugin0;
                     progress := None |}
                  stream0 [chunk [1; 2]%N] [chunk [3]%N]
                  eq_refl eq_refl eq_refl)).
Defined.

Lemma stopRecording_normal (st : Store) :
  result (stopRecording st) = Normal tt.
Proof.
  destruct st as [p pr]. destruct p as [se mr ch str ti].
  destruct mr as [[rs [| |] ls]|]; destruct str as [s|];
    unfold stopRecording, bind; cbn;
    rewrite ?forEach_track_stop; reflexivity.
Qed.

Lemma stopRecording_ends_capture (st : Store) :
  capture_active (plugin (final (stopRecording st))) = false.
Proof.
  destruct st as [p pr]. destruct p as [se mr ch str ti].
  destruct mr as [[rs [| |] ls]|]; destruct str as [s|];
    unfold stopRecording, bind; cbn;
    rewrite ?forEach_track_stop; reflexivity.
Qed.

(** X14: after [stopRecording] no capture is active, and a second
    [stopRecording] makes no call and changes nothing. *)
Theorem stopRecording_twice (st : Store) :
  capture_active (plugin (final (stopRecording st))) = false
  /\ (stopRecording ;; stopRecording) st = stopRecording st.
Proof.
  destruct st as [p pr]. destruct p as [se mr ch str ti].
  unfold bind at 1.
  destruct mr as [[rs [| |] ls]|]; destruct str as [s|];
    unfold stopRecording, bind; cbn;
    rewrite ?forEach_track_stop; cbn; rewrite ?app_nil_r;
    split; reflexivity.
Qed.

(** ** More on the type modal *)

(** X15: the modal has three rows more than there are stored types, and
    the row of the stored type of index [i] calls [transcribeAndSave] with
    the prompt of that type as it is stored, empty or not; that prompt is
    the text of the request sent.  The call is not awaited: the type modal
    is closed as soon as the reading of the blob has been started. *)
Theorem custom_type_prompt (h : Host) (audioBlob : Blob) (st : Store)
        (i : nat) (type : TranscriptionType) :
  nth_error (customTranscriptionTypes (settings (plugin st))) i = Some type ->
  List.length (TranscriptionTypeModal_onOpen h audioBlob (plugin st))
  = 3 + List.length (customTranscriptionTypes (settings (plugin st)))
  /\ select h audioBlob (3 + i) st
     = not_awaited (transcribeAndSave h audioBlob (prompt type))
                   (modal_close TranscriptionTypeModal) st
  /\ firstn 6 (calls (select h audioBlob (3 + i) st))
     = [progress_open;
        progress_updateContent (lit "Transcribing your audio...");
        progress_updateStatus transcribing;
        progress_updateContent (lit "Transcribing your audio...");
        call_readAsDataURL audioBlob;
        modal_close TranscriptionTypeModal]
  /\ requests (calls (select h audioBlob (3 + i) st)) =
       match readAsDataURL h audioBlob with
       | resolved dataUrl =>
           [[inlineData (lit "audio/webm") (nth_error (split_comma dataUrl) 1);
             text (prompt type)]]
       | rejected _ => []
       end.
Proof.
  intros Hnth.
  assert (Hselect : select h audioBlob (3 + i) st
                    = not_awaited (transcribeAndSave h audioBlob (prompt type))
                                  (modal_close TranscriptionTypeModal) st).
  { unfold select, bind at 1, this.
    assert (Hrow : nth_error (TranscriptionTypeModal_onOpen h audioBlob (plugin st))
                     (3 + i) = Some (type_row h audioBlob type)).
    { unfold TranscriptionTypeModal_onOpen.
      rewrite nth_error_app2 by (cbn; lia).
      replace (3 + i - List.length (map (type_row h audioBlob) defaultTypes))
        with i by (cbn; lia).
      now rewrite nth_error_map, Hnth. }
    cbv beta iota. rewrite Hrow. apply prefix_nil. }
  split; [|split; [exact Hselect|split]].
  - unfold TranscriptionTypeModal_onOpen. rewrite length_app, !length_map.
    reflexivity.
  - rewrite Hselect. apply not_awaited_transcribeAndSave_start.
  - rewrite Hselect, not_awaited_requests. eff_run; reflexivity.
Qed.

Lemma custom_type_prompt_witness :
  requests (calls (select host_ok blob0 3 store0))
  = [[inlineData (lit "audio/webm") (Some []); text (lit "Summarise.")]].
Proof.
  apply (proj2 (proj2 (proj2 (custom_type_prompt host_ok blob0 store0 0
                                {| name := lit "Simple"; description := [];
                                   prompt := lit "Summarise." |} eq_refl)))).
Defined.

(** ** The upload *)

(** X16: a picked file goes to the type modal as a blob of its bytes and
    its type, and the request for it is sent without any test of the API
    key: the key of the settings, empty or not, goes with the request, and
    the request names the type audio/webm whatever the type of the file
    is. *)
Theorem upload_is_sent_without_key_check (h : Host) (st : Store)
        (file : File) (bytes : list N) (prompt : jsstring) :
  arrayBuffer file = resolved bytes ->
  let audioBlob := {| blob_bytes := bytes; blob_type := file_type file |} in
  input_onchange (Some file) st
  = {| final := st;
       calls := [modal_close RecordingChoiceModal; modal_open_type audioBlob];
       result := Normal tt |}
  /\ forall dataUrl,
       readAsDataURL h audioBlob = resolved dataUrl ->
       credentials (calls (transcribeAndSave h audioBlob prompt st))
       = [(geminiApiKey (settings (plugin st)), model (settings (plugin st)))]
       /\ requests (calls (transcribeAndSave h audioBlob prompt st))
          = [[inlineData (lit "audio/webm")
                (nth_error (split_comma dataUrl) 1);
              text prompt]].
Proof.
  cbv zeta. intros Hbuf. split.
  - unfold input_onchange, bind. rewrite Hbuf. cbn.
    unfold new_Blob. cbn. now rewrite app_nil_r.
  - intros dataUrl Hread. split.
    + eff_unfold. rewrite Hread. eff_run; reflexivity.
    + rewrite transcribeAndSave_requests, Hread. reflexivity.
Qed.

Lemma upload_is_sent_without_key_check_witness :
  credentials
    (calls (transcribeAndSave (host_reader (lit "data:audio/mpeg;base64,SUQz"))
              {| blob_bytes := [73; 68; 51]%N; blob_type := lit "audio/mpeg" |}
              (lit "Transcribe the audio.") store_no_key))
  = [([], lit "gemini-1.5-flash")]
  /\ requests
       (calls (transcribeAndSave (host_reader (lit "data:audio/mpeg;base64,SUQz"))
                 {| blob_bytes := [73; 68; 51]%N; blob_type := lit "audio/mpeg" |}
                 (lit "Transcribe the audio.") store_no_key))
     = [[inlineData (lit "audio/webm") (Some (lit "SUQz"));
         text (lit "Transcribe the audio.")]].
Proof.
  exact (proj2 (upload_is_sent_without_key_check
                  (host_reader (lit "data:audio/mpeg;base64,SUQz"))
                  store_no_key mp3_file
                  [73; 68; 51]%N (lit "Transcribe the audio.") eq_refl)
           (lit "data:audio/mpeg;base64,SUQz") eq_refl).
Defined.

(** ** The data URL of the reader *)

Lemma split_comma_header (header rest : jsstring) :
  has_no_comma header = true ->
  split_comma (header ++ comma :: rest) = header :: split_comma rest.
Proof.
  unfold has_no_comma. induction header as [|c header IH]; intros H.
  - reflexivity.
  - simpl in H. apply andb_true_iff in H as [Hc Hh].
    apply negb_true_iff in Hc. simpl. rewrite Hc, (IH Hh). reflexivity.
Qed.

Lemma split_comma_one (s : jsstring) :
  has_no_comma s = true -> split_comma s = [s].
Proof.
  unfold has_no_comma. induction s as [|c s IH]; intros H; [reflexivity|].
  simpl in H. apply andb_true_iff in H as [Hc Hs].
  apply negb_true_iff in Hc. simpl. rewrite Hc, (IH Hs). reflexivity.
Qed.

(** X17: for a data URL made of a header without a comma, a comma and a
    payload without a comma, as base64 is, [blobToBase64] gives the payload,
    and that payload is the data of the request. *)
Theorem blobToBase64_payload (h : Host) (blob : Blob) (prompt : jsstring)
        (st : Store) (header payload : jsstring) :
  has_no_comma header = true ->
  has_no_comma payload = true ->
  readAsDataURL h blob = resolved (header ++ comma :: payload) ->
  result (blobToBase64 h blob st) = Normal (Some payload)
  /\ requests (calls (transcribe h blob prompt st))
     = [[inlineData (lit "audio/webm") (Some payload); text prompt]].
Proof.
  intros Hh Hp Hread.
  assert (Hsplit : nth_error (split_comma (header ++ comma :: payload)) 1
                   = Some payload).
  { now rewrite (split_comma_header _ _ Hh), (split_comma_one _ Hp). }
  split.
  - unfold blobToBase64, bind. rewrite Hread. cbn. now rewrite Hsplit.
  - rewrite transcribe_requests, Hread, Hsplit. reflexivity.
Qed.

Lemma blobToBase64_payload_witness :
  result (blobToBase64 (host_reader (lit "data:audio/webm;base64,GkXf"))
            (chunk [26; 69; 223]%N) store0)
  = Normal (Some (lit "GkXf")).
Proof.
  apply (proj1 (blobToBase64_payload
                  (host_reader (lit "data:audio/webm;base64,GkXf"))
                  (chunk [26; 69; 223]%N) (lit "p") store0
                  (lit "data:audio/webm;base64") (lit "GkXf")
                  eq_refl eq_refl eq_refl)).
Defined.

(** When the data URL of the reader holds no comma, [blobToBase64]
    gives [undefined], and the request is sent all the same, without
    data. *)
Theorem blobToBase64_without_comma (h : Host) (blob : Blob)
        (prompt : jsstring) (st : Store) (dataUrl : jsstring) :
  has_no_comma dataUrl = true ->
  readAsDataURL h blob = resolved dataUrl ->
  result (blobToBase64 h blob st) = Normal None
  /\ requests (calls (transcribe h blob prompt st))
     = [[inlineData (lit "audio/webm") None; text prompt]].
Proof.
  intros Hc Hread.
  assert (Hsplit : nth_error (split_comma dataUrl) 1 = None)
    by now rewrite (split_comma_one _ Hc).
  split.
  - unfold blobToBase64, bind. rewrite Hread. cbn. now rewrite Hsplit.
  - rewrite transcribe_requests, Hread, Hsplit. reflexivity.
Qed.

Lemma blobToBase64_without_comma_witness :
  requests (calls (transcribe (host_reader (lit "data:")) blob0 (lit "p") store0))
  = [[inlineData (lit "audio/webm") None; text (lit "p")]].
Proof.
  apply (proj2 (blobToBase64_without_comma (host_reader (lit "data:")) blob0
                  (lit "p") store0 (lit "data:") eq_refl eq_refl)).
Defined.

(** ** The title input *)

(** X18: a title typed in the input names the note of the next run; when
    the note has been created the input of the next modal opens empty, and
    when the run fails before that it opens with the typed title. *)
Theorem typed_title (h : Host) (audioBlob : Blob) (prompt : jsstring)
        (st : Store) (val : jsstring) :
  let r := (titleInput_oninput val ;; transcribeAndSave h audioBlob prompt) st in
  let path := filePath (Some val) (Date_now h) in
  match result (transcribe h audioBlob prompt st) with
  | Throw _ =>
      created (calls r) = [] /\ titleInput_value (plugin (final r)) = val
  | Normal content =>
      created (calls r) = [(path, content)]
      /\ titleInput_value (plugin (final r))
         = match vault_create h path content with
           | resolved _ => []
           | rejected _ => val
           end
  end.
Proof.
  cbv zeta. destruct st as [p pr]. destruct p as [se mr ch str ti].
  eff_unfold'; plugin_fields.
  repeat match goal with
    | |- context [match ?o with resolved _ => _ | rejected _ => _ end] =>
        destruct o eqn:?; eff_unfold'; plugin_fields
    end; split; reflexivity.
Qed.

(** ** The timer *)

Lemma below_6000 (n : N) :
  (n < 6000)%N -> In n (map N.of_nat (seq 0 (N.to_nat 6000))).
Proof.
  intros H. apply in_map_iff. exists (N.to_nat n). split.
  - apply N2Nat.id.
  - apply in_seq. lia.
Qed.

(** X19: for less than 100 minutes the timer shows two digits of minutes,
    a colon and two digits of seconds below 60, which stand for the count
    of seconds; each tick adds one second. *)
Theorem timer_text_is_mm_ss (seconds : N) :
  (seconds < 6000)%N ->
  List.length (timer_text seconds) = 5
  /\ timer_seconds (timer_text seconds) = Some seconds
  /\ timer_tick seconds = ((seconds + 1)%N, timer_text (seconds + 1)).
Proof.
  intros H.
  assert (Hall : forallb (fun n => (List.length (timer_text n) =? 5)%nat
                                   && match timer_seconds (timer_text n) with
                                      | Some m => (m =? n)%N
                                      | None => false
                                      end)
                   (map N.of_nat (seq 0 (N.to_nat 6000))) = true)
    by (vm_compute; reflexivity).
  rewrite forallb_forall in Hall. specialize (Hall _ (below_6000 _ H)).
  apply andb_true_iff in Hall as [Hlen Hsec].
  apply Nat.eqb_eq in Hlen.
  destruct (timer_seconds (timer_text seconds)) as [m|]; [|discriminate].
  apply N.eqb_eq in Hsec. subst m. auto.
Qed.

Lemma timer_text_is_mm_ss_witness :
  timer_text 754 = lit "12:34" /\ timer_seconds (lit "12:34") = Some 754%N.
Proof.
  pose proof (timer_text_is_mm_ss 754 eq_refl) as (_ & Hsec & _).
  split; [reflexivity|]. exact Hsec.
Defined.

Example timer_text_after_100_minutes : timer_text 6000 = lit "100:00".
Proof. reflexivity. Qed.

(** ** Settings *)

Ltac tab_unfold :=
  cbv beta iota zeta delta
    [run_action geminiApiKey_onChange model_onChange name_onChange
     description_onChange prompt_onChange generate_onClick delete_onClick
     addNewType_onClick saveSettings loadSettings assign_at display
     update_settings lift generatePrompt
     act_bind act_try act_prefix act_ret act_call act_lift act_get
     act_update tab_call
     act_final act_calls act_result
     bind try_catch prefix ret throw call this update await
     final calls result plugin progress];
  cbn [List.map List.app set_settings set_stream set_mediaRecorder
       set_audioChunks set_currentTranscriptionTitle settings mediaRecorder
       audioChunks stream currentTranscriptionTitle].

Ltac tab_run :=
  tab_unfold;
  repeat match goal with
    | |- context [match ?o with resolved _ => _ | rejected _ => _ end] =>
        destruct o eqn:?; tab_unfold
    | |- context [match nth_error ?l ?i with Some _ => _ | None => _ end] =>
        destruct (nth_error l i) eqn:?; tab_unfold
    end.



(** ** The settings tab *)

(** X21: whatever is done in the settings tab, the recorder, the chunks,
    the stream and the pending title of the plugin are left as they were,
    and when the settings change the new settings are what [saveData] is
    handed last. *)
Theorem every_change_is_saved (h : Host) (dh : DataHost) (TypeError : Thrown)
        (a : TabAction) (st : Store) :
  let r := run_action h dh TypeError a st in
  recording_state (plugin (act_final r)) = recording_state (plugin st)
  /\ (settings (plugin (act_final r)) = settings (plugin st)
      \/ last (saves (act_calls r)) (settings (plugin st))
         = settings (plugin (act_final r))).
Proof.
  cbv zeta. destruct st as [p pr]. destruct p as [se mr ch str ti].
  destruct a; tab_run; (split; [reflexivity|]); cbn; auto.
Qed.

Lemma nth_error_splice1 {A} (i j : nat) (l : list A) :
  nth_error (splice1 i l) j
  = if (j <? i)%nat then nth_error l j else nth_error l (S j).
Proof.
  unfold splice1. destruct (Nat.ltb_spec j i) as [Hlt|Hge].
  - destruct (Nat.le_gt_cases (List.length l) j) as [Hout|Hin].
    + rewrite (proj2 (nth_error_None l j)) by assumption.
      apply nth_error_None.
      rewrite length_app, length_firstn, length_skipn. lia.
    + rewrite nth_error_app1 by (rewrite length_firstn; lia).
      rewrite nth_error_firstn.
      now rewrite (proj2 (Nat.ltb_lt j i) Hlt).
  - destruct (Nat.le_gt_cases (List.length l) i) as [Hout|Hin].
    + rewrite skipn_all2 by lia. rewrite app_nil_r, firstn_all2 by lia.
      rewrite !(proj2 (nth_error_None l _)) by lia. reflexivity.
    + rewrite nth_error_app2 by (rewrite length_firstn; lia).
      rewrite length_firstn, nth_error_skipn.
      f_equal. lia.
Qed.

(** X22: Delete takes the type of its index out of the list and keeps the
    others in their order; the list is changed before the save, so a save
    that fails is thrown with the list already changed, and the tab is
    displayed again only after a save that succeeds. *)
Theorem delete_removes_one_type (dh : DataHost) (index : nat) (st : Store) :
  let r := delete_onClick dh index st in
  let types := customTranscriptionTypes (settings (plugin st)) in
  let types' := customTranscriptionTypes (settings (plugin (act_final r))) in
  let settings' :=
    set_customTranscriptionTypes (splice1 index types) (settings (plugin st)) in
  settings (plugin (act_final r)) = settings'
  /\ (forall j, nth_error types' j
                = if (j <? index)%nat then nth_error types j
                  else nth_error types (S j))
  /\ (index < List.length types -> S (List.length types') = List.length types)
  /\ saves (act_calls r) = [settings']
  /\ match saveData dh settings' with
     | resolved _ => act_result r = Normal tt /\ displays (act_calls r) = 1
     | rejected e => act_result r = Throw e /\ displays (act_calls r) = 0
     end.
Proof.
  cbv zeta. destruct st as [p pr]. destruct p as [se mr ch str ti].
  cbn [plugin settings].
  assert (Hrun :
            delete_onClick dh index
              {| plugin := {| settings := se; mediaRecorder := mr;
                              audioChunks := ch; stream := str;
                              currentTranscriptionTitle := ti |};
                 progress := pr |}
            = let settings' :=
                set_customTranscriptionTypes
                  (splice1 index (customTranscriptionTypes se)) se in
              let st' :=
                {| plugin := {| settings := settings'; mediaRecorder := mr;
                                audioChunks := ch; stream := str;
                                currentTranscriptionTitle := ti |};
                   progress := pr |} in
              match saveData dh settings' with
              | resolved _ =>
                  {| act_final := st';
                     act_calls := [call_saveData settings'; call_display];
                     act_result := Normal tt |}
              | rejected e =>
                  {| act_final := st';
                     act_calls := [call_saveData settings'];
                     act_result := Throw e |}
              end).
  { tab_unfold.
    destruct (saveData dh
                (set_customTranscriptionTypes
                   (splice1 index (customTranscriptionTypes se)) se));
      reflexivity. }
  rewrite Hrun. cbv zeta.
  destruct (saveData dh
              (set_customTranscriptionTypes
                 (splice1 index (customTranscriptionTypes se)) se));
    cbn [act_final act_calls act_result plugin settings
         set_customTranscriptionTypes customTranscriptionTypes];
    (split; [reflexivity|]);
    (split; [intros j; apply nth_error_splice1|]);
    (split; [intros Hin; unfold splice1;
             rewrite length_app, length_firstn, length_skipn; lia|]);
    repeat split.
Qed.

Example delete_with_read_only_data :
  act_result (delete_onClick data_read_only 0 store0) = Throw (failure "EACCES")
  /\ customTranscriptionTypes
       (settings (plugin (act_final (delete_onClick data_read_only 0 store0))))
     = []
  /\ displays (act_calls (delete_onClick data_read_only 0 store0)) = 0.
Proof. repeat split. Qed.

(** X23: Add New Type puts an empty type at the end of the list, and Delete
    on that row takes it away again: after both the list is the one before,
    when the data file accepts the writes. *)
Theorem add_then_delete (dh : DataHost) (st : Store) :
  (forall s, saveData dh s = resolved tt) ->
  let types := customTranscriptionTypes (settings (plugin st)) in
  let added := addNewType_onClick dh st in
  let r := (addNewType_onClick dh ;;
            delete_onClick dh (List.length types))%act st in
  customTranscriptionTypes (settings (plugin (act_final added)))
  = types ++ [ {| name := []; description := []; prompt := [] |} ]
  /\ customTranscriptionTypes (settings (plugin (act_final r))) = types
  /\ settings (plugin (act_final r)) = settings (plugin st)
  /\ displays (act_calls r) = 2.
Proof.
  cbv zeta. intros Hsave.
  destruct st as [p pr]. destruct p as [se mr ch str ti].
  destruct se as [k m types].
  tab_unfold. repeat (rewrite Hsave; tab_unfold).
  cbn [customTranscriptionTypes set_customTranscriptionTypes geminiApiKey model].
  assert (Hsplice : splice1 (List.length types)
                      (types ++ [ {| name := []; description := []; prompt := [] |} ])
                    = types).
  { unfold splice1.
    rewrite skipn_all2 by (rewrite length_app; cbn; lia).
    rewrite firstn_app, firstn_all, Nat.sub_diag. cbn.
    now rewrite !app_nil_r. }
  rewrite Hsplice. repeat split.
Qed.

Lemma add_then_delete_witness :
  customTranscriptionTypes
    (settings (plugin (act_final
       ((addNewType_onClick (data_ok None) ;;
         delete_onClick (data_ok None) 1)%act store0))))
  = customTranscriptionTypes (settings plugin0).
Proof.
  exact (proj1 (proj2 (add_then_delete (data_ok None) store0
                         (fun _ => eq_refl)))).
Defined.

Lemma nth_error_assign {A} (i j : nat) (x : A) (l : list A) :
  i < List.length l ->
  nth_error (firstn i l ++ x :: skipn (S i) l) j
  = if (j =? i)%nat then Some x else nth_error l j.
Proof.
  intros Hi. destruct (Nat.eqb_spec j i) as [->|Hne].
  - rewrite nth_error_app2 by (rewrite length_firstn; lia).
    rewrite length_firstn. replace (i - Nat.min i (List.length l)) with 0 by lia.
    reflexivity.
  - destruct (Nat.lt_ge_cases j i) as [Hlt|Hge].
    + rewrite nth_error_app1 by (rewrite length_firstn; lia).
      rewrite nth_error_firstn. now rewrite (proj2 (Nat.ltb_lt j i) Hlt).
    + rewrite nth_error_app2 by (rewrite length_firstn; lia).
      rewrite length_firstn.
      replace (j - Nat.min i (List.length l)) with (S (j - S i)) by lia.
      change (nth_error (skipn (S i) l) (j - S i) = nth_error l j).
      rewrite nth_error_skipn. f_equal. lia.
Qed.

Lemma assign_at_save (dh : DataHost) (TypeError : Thrown) (index : nat)
      (f : TranscriptionType -> TranscriptionType) (st : Store) :
  (assign_at TypeError index f ;; saveSettings dh)%act st
  = match nth_error (customTranscriptionTypes (settings (plugin st))) index with
    | None =>
        {| act_final := st; act_calls := [];
           act_result := Throw TypeError |}
    | Some t =>
        let settings' :=
          set_customTranscriptionTypes
            (firstn index (customTranscriptionTypes (settings (plugin st)))
               ++ f t
               :: skipn (S index) (customTranscriptionTypes (settings (plugin st))))
            (settings (plugin st)) in
        {| act_final := {| plugin := set_settings settings' (plugin st);
                           progress := progress st |};
           act_calls := [call_saveData settings'];
           act_result :=
             match saveData dh settings' with
             | resolved _ => Normal tt
             | rejected e => Throw e
             end |}
    end.
Proof.
  destruct st as [p pr]. destruct p as [se mr ch str ti].
  cbn [plugin settings progress].
  tab_unfold.
  destruct (nth_error (customTranscriptionTypes se) index) as [t|];
    [|reflexivity].
  tab_unfold.
  destruct (saveData dh
              (set_customTranscriptionTypes
                 (firstn index (customTranscriptionTypes se)
                    ++ f t :: skipn (S index) (customTranscriptionTypes se)) se))
    as [[]|e]; reflexivity.
Qed.

Lemma assign_at_edits (dh : DataHost) (TypeError : Thrown) (index : nat)
      (f : TranscriptionType -> TranscriptionType) (t : TranscriptionType)
      (st : Store) :
  nth_error (customTranscriptionTypes (settings (plugin st))) index = Some t ->
  edits_one_type st index (f t)
    ((assign_at TypeError index f ;; saveSettings dh)%act st).
Proof.
  intros Hnth.
  assert (Hi : index < List.length (customTranscriptionTypes (settings (plugin st))))
    by (apply nth_error_Some; congruence).
  unfold edits_one_type. rewrite assign_at_save, Hnth. cbv zeta.
  cbn [act_final act_calls plugin settings set_settings
       set_customTranscriptionTypes customTranscriptionTypes geminiApiKey model].
  split; [intros j; now apply nth_error_assign|].
  split.
  - rewrite length_app, length_firstn. cbn [List.length].
    rewrite length_skipn. lia.
  - repeat split.
Qed.

(** X24: typing in the Name, Description or Prompt field of the row of
    index [index] changes that one field of that one type: the other types,
    the other two fields, the key and the model stay, and the new settings
    are handed to [saveData]. *)
Theorem field_edit_changes_one_field (dh : DataHost) (TypeError : Thrown)
        (index : nat) (value : jsstring) (t : TranscriptionType) (st : Store) :
  nth_error (customTranscriptionTypes (settings (plugin st))) index = Some t ->
  edits_one_type st index (set_name value t)
    (name_onChange dh TypeError index value st)
  /\ edits_one_type st index (set_description value t)
       (description_onChange dh TypeError index value st)
  /\ edits_one_type st index (set_prompt value t)
       (prompt_onChange dh TypeError index value st).
Proof.
  intros Hnth. split; [|split].
  - exact (assign_at_edits dh TypeError index (set_name value) t st Hnth).
  - exact (assign_at_edits dh TypeError index (set_description value) t st Hnth).
  - exact (assign_at_edits dh TypeError index (set_prompt value) t st Hnth).
Qed.

Lemma field_edit_changes_one_field_witness :
  customTranscriptionTypes
    (settings (plugin (act_final
       (name_onChange (data_ok None) no_message 0 (lit "Summary") store0))))
  = [ {| name := lit "Summary"; description := [];
         prompt := lit "Summarise." |} ].
Proof.
  pose proof (field_edit_changes_one_field (data_ok None) no_message 0
                (lit "Summary")
                {| name := lit "Simple"; description := [];
                   prompt := lit "Summarise." |} store0 eq_refl)
    as ((Hnth & _) & _).
  apply nth_error_ext. intros j. rewrite Hnth.
  destruct j as [|[|j]]; reflexivity.
Defined.

(** A field of a row that is not in the list any more cannot be
    edited: the handler throws before anything is changed or saved. *)
Theorem field_edit_out_of_range (dh : DataHost) (TypeError : Thrown)
        (index : nat) (value : jsstring) (st : Store) :
  List.length (customTranscriptionTypes (settings (plugin st))) <= index ->
  let r := name_onChange dh TypeError index value st in
  act_final r = st
  /\ act_calls r = []
  /\ act_result r = Throw TypeError.
Proof.
  cbv zeta. intros Hout. unfold name_onChange.
  rewrite assign_at_save.
  rewrite (proj2 (nth_error_None _ _) Hout). repeat split.
Qed.

Lemma field_edit_out_of_range_witness :
  act_calls (name_onChange (data_ok None) no_message 1 (lit "x") store0) = [].
Proof.
  apply (proj1 (proj2 (field_edit_out_of_range (data_ok None) no_message 1
                         (lit "x") store0 (le_n 1)))).
Defined.

(** X25: Generate with AI never throws and always closes its modal: the
    first call opens the modal, the last one closes it, and in between one
    request is sent, whose one text is the fixed sentence around the name
    of the type. *)
Theorem generate_closes_its_modal (h : Host) (dh : DataHost)
        (TypeError : Thrown) (type : TranscriptionType) (index : nat)
        (st : Store) :
  let r := generate_onClick h dh TypeError type index st in
  act_result r = Normal tt
  /\ hd_error (act_calls r) = Some generating_open
  /\ last (act_calls r) generating_open = generating_close
  /\ tab_requests (act_calls r) = [[text (generatePrompt_text (name type))]].
Proof.
  cbv zeta. destruct st as [p pr]. destruct p as [se mr ch str ti].
  tab_run; repeat split.
Qed.

(** X26: when the request of Generate with AI fails, the settings stay as
    they were, nothing is saved and one notice carries the message after
    "Error generating prompt: "; when it succeeds and the row is still in
    the list, the text of the answer becomes the prompt of that type, the
    other fields and types stay, and the settings are saved. *)
Theorem generate_sets_the_prompt (h : Host) (dh : DataHost)
        (TypeError : Thrown) (type : TranscriptionType) (index : nat)
        (st : Store) :
  let r := generate_onClick h dh TypeError type index st in
  let s := settings (plugin st) in
  match generateContent h (geminiApiKey s) (model s)
          [text (generatePrompt_text (name type))] with
  | rejected e =>
      act_final r = st
      /\ saves (act_calls r) = []
      /\ displays (act_calls r) = 0
      /\ tab_notices (act_calls r)
         = [lit "Error generating prompt: " ++ show_message e]
  | resolved generated =>
      forall t, nth_error (customTranscriptionTypes s) index = Some t ->
        edits_one_type st index (set_prompt generated t) r
  end.
Proof.
  cbv zeta. destruct st as [p pr]. destruct p as [se mr ch str ti].
  cbn [plugin settings].
  destruct (generateContent h (geminiApiKey se) (model se)
              [text (generatePrompt_text (name type))]) as [generated|e] eqn:Hgen.
  - intros t Hnth.
    pose proof (assign_at_edits dh TypeError index (set_prompt generated) t
                  {| plugin := {| settings := se; mediaRecorder := mr;
                                  audioChunks := ch; stream := str;
                                  currentTranscriptionTitle := ti |};
                     progress := pr |} Hnth) as Hedit.
    unfold edits_one_type in *. cbn [plugin settings] in *.
    rewrite assign_at_save in Hedit. cbn [plugin settings] in Hedit.
    rewrite Hnth in Hedit. cbv zeta in Hedit.
    cbn [act_final act_calls] in Hedit.
    tab_unfold. rewrite Hgen. tab_unfold. rewrite Hnth. tab_unfold.
    destruct (saveData dh _); tab_unfold; exact Hedit.
  - tab_unfold. rewrite Hgen. tab_unfold. repeat split.
Qed.

(** ** The recording view *)

Ltac view_unfold :=
  cbv beta iota zeta delta
    [RecordingModal_showRecordingUI RecordingModal_close RecordingModal_onClose
     RecordingModal_new stopButton_click draw interval_tick view_lift
     act_bind act_try act_prefix act_ret act_call act_lift act_get act_update
     act_final act_calls act_result
     bind try_catch prefix ret throw call this update await
     final calls result plugin progress
     set_view_store set_audioContext set_analyser set_animationFrameId
     set_timerIntervalId set_timer view_store audioContext analyser
     animationFrameId timerIntervalId seconds timerEl];
  cbn [List.map List.app set_settings set_stream set_mediaRecorder
       set_audioChunks set_currentTranscriptionTitle set_state settings
       mediaRecorder audioChunks stream currentTranscriptionTitle
       rec_stream state listeners negb].

Lemma last_cons (ids : list positive) (id id0 : positive) :
  last (id :: ids) id0 = last ids id.
Proof.
  revert id id0. induction ids as [|p ids IH]; intros id id0; [reflexivity|].
  change (last (id :: p :: ids) id0) with (last (p :: ids) id0).
  now rewrite !IH.
Qed.

Lemma frames_run (ids : list positive) (st : Store) (ctx : bool)
      (id0 : positive) (interval : option positive) (s : N) (text : jsstring) :
  frames ids
    {| view_store := st; audioContext := ctx; analyser := true;
       animationFrameId := Some id0; timerIntervalId := interval;
       seconds := s; timerEl := text |}
  = {| act_final :=
         {| view_store := st; audioContext := ctx; analyser := true;
            animationFrameId := Some (last ids id0);
            timerIntervalId := interval; seconds := s; timerEl := text |};
       act_calls :=
         flat_map (fun id => [call_requestAnimationFrame id; draw_waveform]) ids;
       act_result := Normal tt |}.
Proof.
  revert id0. induction ids as [|id ids IH]; intros id0; [reflexivity|].
  cbn [frames]. unfold act_bind at 1. view_unfold.
  rewrite (IH id). cbn [act_prefix flat_map List.app].
  now rewrite last_cons.
Qed.

Lemma requested_frames_drawn (ids : list positive) :
  requested_frames
    (flat_map (fun id => [call_requestAnimationFrame id; draw_waveform]) ids)
  = ids.
Proof.
  induction ids as [|id ids IH]; [reflexivity|].
  cbn [flat_map List.app]. unfold requested_frames in *.
  cbn [flat_map List.app]. now rewrite IH.
Qed.

Lemma forEach_track_stop_view (s : MediaStream) (st : Store) :
  forEach s (fun track : MediaStreamTrack =>
               fun st' : Store =>
                 {| final := st'; calls := [call_track_stop track];
                    result := Normal tt |}) st
  = {| final := st; calls := map call_track_stop s; result := Normal tt |}.
Proof. exact (forEach_track_stop s st). Qed.

Lemma showRecordingUI_ok (b : Browser) (st : Store) (s : MediaStream) :
  getContext b = true ->
  AudioContext_new b = resolved tt ->
  createMediaStreamSource b = resolved tt ->
  stream (plugin st) = Some s ->
  RecordingModal_showRecordingUI b (RecordingModal_new st)
  = {| act_final :=
         {| view_store := st; audioContext := true; analyser := true;
            animationFrameId := Some (requestAnimationFrame b);
            timerIntervalId := Some (setInterval b);
            seconds := 0; timerEl := lit "00:00" |};
       act_calls :=
         [call_setInterval 1000 (setInterval b); call_AudioContext_new;
          call_requestAnimationFrame (requestAnimationFrame b);
          draw_waveform; stopButton_created];
       act_result := Normal tt |}.
Proof.
  intros Hctx Haudio Hsource Hstream.
  destruct st as [p pr]. cbn [plugin] in Hstream.
  view_unfold. rewrite Hctx. view_unfold. rewrite Haudio. view_unfold.
  rewrite Hstream. view_unfold. rewrite Hsource. view_unfold.
  reflexivity.
Qed.

Lemma plugin_calls_unseen {B} (f : ViewCall -> list B) (l : list Call) :
  (forall c, f (view_plugin c) = []) ->
  flat_map f (map view_plugin l) = [].
Proof.
  intros Hf. induction l as [|c l IH]; [reflexivity|].
  cbn. now rewrite Hf, IH.
Qed.

Lemma onClose_run (v : RecordingView) :
  RecordingModal_onClose v
  = {| act_final := v; act_calls := onClose_calls v; act_result := Normal tt |}.
Proof.
  destruct v as [st ctx an [f|] [i|] s text]; destruct ctx; reflexivity.
Qed.

Lemma close_run (v : RecordingView) :
  RecordingModal_close v
  = {| act_final := v;
       act_calls := view_plugin (modal_close RecordingModal) :: onClose_calls v;
       act_result := Normal tt |}.
Proof.
  cbv beta iota delta [RecordingModal_close act_bind act_call].
  rewrite onClose_run. reflexivity.
Qed.

Lemma stopButton_click_run (v : RecordingView) :
  stopButton_click v
  = {| act_final := set_view_store (final (stopRecording (view_store v))) v;
       act_calls :=
         map view_plugin (calls (stopRecording (view_store v)))
           ++ match animationFrameId v with
              | Some id => [call_cancelAnimationFrame id]
              | None => []
              end
           ++ match timerIntervalId v with
              | Some id => [call_clearInterval id]
              | None => []
              end
           ++ view_plugin (modal_close RecordingModal) :: onClose_calls v;
       act_result := Normal tt |}.
Proof.
  pose proof (stopRecording_normal (view_store v)) as Hn.
  unfold stopButton_click, RecordingModal_close.
  unfold act_bind at 1. unfold view_lift, act_lift.
  destruct (stopRecording (view_store v)) as [f l x] eqn:Hs.
  cbn [result final calls] in *. subst x.
  unfold act_bind at 1, act_get.
  unfold act_bind at 1.
  destruct v as [st ctx an [fr|] [i|] s text]; destruct ctx;
    cbn; reflexivity.
Qed.

Ltac view_observe :=
  unfold requested_frames, cancelled_frames, set_intervals, cleared_intervals,
    view_notices, view_closes;
  repeat rewrite ?flat_map_app, ?filter_app, ?length_app,
    ?(plugin_calls_unseen _ _ (fun _ => eq_refl)).

Lemma view_closes_plugin (l : list Call) :
  (forall c, In c l -> c <> modal_close RecordingModal) ->
  filter (fun c => match c with
                   | view_plugin (modal_close RecordingModal) => true
                   | _ => false
                   end) (map view_plugin l) = [].
Proof.
  induction l as [|c l IH]; intros H; [reflexivity|].
  cbn [map filter]. rewrite IH by (intros c' Hc'; apply H; now right).
  destruct c; try reflexivity.
  destruct k; try reflexivity.
  exfalso. apply (H (modal_close RecordingModal)); [now left|reflexivity].
Qed.

Lemma stopRecording_closes_nothing (st : Store) (c : Call) :
  In c (calls (stopRecording st)) -> c <> modal_close RecordingModal.
Proof.
  destruct st as [p pr]. destruct p as [se mr ch str ti].
  destruct mr as [[rs [| |] ls]|]; destruct str as [s|];
    unfold stopRecording, bind; cbn;
    rewrite ?forEach_track_stop; cbn; rewrite ?app_nil_r;
    intros Hin;
    repeat match goal with
      | H : _ \/ _ |- _ => destruct H as [<-|H]; [discriminate|]
      | H : In _ (map _ _) |- _ =>
          apply in_map_iff in H as (t & <- & _); discriminate
      | H : False |- _ => destruct H
      | H : In _ [] |- _ => destruct H
      end.
Qed.

(** X27: the Stop Recording button stops the frame loop and the timer that
    are running: after any number of frames the frame request it cancels is
    the last one made, the interval it clears is the one that was set, the
    modal is closed, and the recorder is stopped and the stream released. *)
Theorem stop_cancels_frame_and_timer (b : Browser) (st : Store)
        (s : MediaStream) (ids : list positive) :
  getContext b = true ->
  AudioContext_new b = resolved tt ->
  createMediaStreamSource b = resolved tt ->
  stream (plugin st) = Some s ->
  let r := (RecordingModal_showRecordingUI b ;; frames ids ;;
            stopButton_click)%act (RecordingModal_new st) in
  let pending := last ids (requestAnimationFrame b) in
  act_result r = Normal tt
  /\ requested_frames (act_calls r) = requestAnimationFrame b :: ids
  /\ cancelled_frames (act_calls r) = [pending; pending]
  /\ set_intervals (act_calls r) = [setInterval b]
  /\ cleared_intervals (act_calls r) = [setInterval b; setInterval b]
  /\ view_closes (act_calls r) = 1
  /\ capture_active (plugin (view_store (act_final r))) = false.
Proof.
  cbv zeta. intros Hctx Haudio Hsource Hstream.
  match goal with |- act_result ?run = _ /\ _ => remember run as r eqn:Hr end.
  unfold act_bind at 1 in Hr.
  rewrite (showRecordingUI_ok b st s Hctx Haudio Hsource Hstream) in Hr.
  unfold act_bind at 1 in Hr. rewrite frames_run in Hr.
  rewrite stopButton_click_run in Hr.
  cbn [act_prefix view_store animationFrameId timerIntervalId audioContext
       onClose_calls set_view_store analyser seconds timerEl] in Hr.
  subst r. cbn [act_result act_calls act_final view_store].
  split; [reflexivity|].
  split.
  { view_observe. cbn [flat_map List.app].
    fold (requested_frames
            (flat_map (fun id => [call_requestAnimationFrame id; draw_waveform]) ids)).
    rewrite requested_frames_drawn. now rewrite app_nil_r. }
  assert (Hdrawn : forall (B : Type) (f : ViewCall -> list B),
             (forall id, f (call_requestAnimationFrame id) = []) ->
             f draw_waveform = [] ->
             flat_map f
               (flat_map (fun id => [call_requestAnimationFrame id; draw_waveform]) ids)
             = []).
  { intros B f Hreq Hdraw. induction ids as [|id ids' IH]; [reflexivity|].
    cbn [flat_map List.app]. now rewrite Hreq, Hdraw, IH. }
  split.
  { view_observe. rewrite (Hdrawn _ _ (fun _ => eq_refl) eq_refl). reflexivity. }
  split.
  { view_observe. rewrite (Hdrawn _ _ (fun _ => eq_refl) eq_refl). reflexivity. }
  split.
  { view_observe. rewrite (Hdrawn _ _ (fun _ => eq_refl) eq_refl). reflexivity. }
  split.
  { unfold view_closes.
    rewrite !filter_app, view_closes_plugin
      by apply stopRecording_closes_nothing.
    assert (Hnone : filter (fun c => match c with
                                     | view_plugin (modal_close RecordingModal) => true
                                     | _ => false
                                     end)
                      (flat_map (fun id => [call_requestAnimationFrame id; draw_waveform]) ids)
                    = []).
    { clear. induction ids as [|id ids IH]; [reflexivity|]. exact IH. }
    cbn [filter List.app]. rewrite Hnone. reflexivity. }
  apply stopRecording_ends_capture.
Qed.

Lemma stop_cancels_frame_and_timer_witness :
  cancelled_frames
    (act_calls ((RecordingModal_showRecordingUI browser_ok ;;
                 frames [2; 3]%positive ;;
                 stopButton_click)%act (RecordingModal_new store_recording)))
  = [3; 3]%positive
  /\ capture_active
       (plugin (view_store (act_final
          ((RecordingModal_showRecordingUI browser_ok ;;
            frames [2; 3]%positive ;;
            stopButton_click)%act (RecordingModal_new store_recording)))))
     = false.
Proof.
  pose proof (stop_cancels_frame_and_timer browser_ok store_recording stream0
                [2; 3]%positive eq_refl eq_refl eq_refl eq_refl)
    as (_ & _ & Hcancel & _ & _ & _ & Hcapture).
  split; [exact Hcancel | exact Hcapture].
Defined.

(** X28: closing the modal in another way than by its Stop button clears
    the timer, cancels the pending frame request and closes the audio
    context, but leaves the plugin as it is: the recorder goes on recording
    and the stream stays held. *)
Theorem close_without_stop_keeps_recording (b : Browser) (st : Store)
        (s : MediaStream) (ids : list positive) :
  getContext b = true ->
  AudioContext_new b = resolved tt ->
  createMediaStreamSource b = resolved tt ->
  stream (plugin st) = Some s ->
  let r := (RecordingModal_showRecordingUI b ;; frames ids ;;
            RecordingModal_close)%act (RecordingModal_new st) in
  act_result r = Normal tt
  /\ view_store (act_final r) = st
  /\ capture_active (plugin (view_store (act_final r))) = true
  /\ (exists l,
        act_calls r
        = l ++ [view_plugin (modal_close RecordingModal);
                call_removeStyles;
                call_cancelAnimationFrame (last ids (requestAnimationFrame b));
                call_audioContext_close;
                call_clearInterval (setInterval b)]).
Proof.
  cbv zeta. intros Hctx Haudio Hsource Hstream.
  match goal with |- act_result ?run = _ /\ _ => remember run as r eqn:Hr end.
  unfold act_bind at 1 in Hr.
  rewrite (showRecordingUI_ok b st s Hctx Haudio Hsource Hstream) in Hr.
  unfold act_bind at 1 in Hr. rewrite frames_run in Hr.
  rewrite close_run in Hr.
  cbn [act_prefix act_call view_store animationFrameId timerIntervalId
       audioContext onClose_calls List.app] in Hr.
  subst r. cbn [act_result act_calls act_final view_store].
  split; [reflexivity|]. split; [reflexivity|]. split.
  - unfold capture_active. rewrite Hstream. apply orb_true_r.
  - exists ([call_setInterval 1000 (setInterval b); call_AudioContext_new;
             call_requestAnimationFrame (requestAnimationFrame b);
             draw_waveform; stopButton_created]
              ++ flat_map (fun id => [call_requestAnimationFrame id; draw_waveform])
                   ids).
    rewrite <- app_assoc. reflexivity.
Qed.

Lemma close_without_stop_keeps_recording_witness :
  capture_active
    (plugin (view_store (act_final
       ((RecordingModal_showRecordingUI browser_ok ;; frames [2]%positive ;;
         RecordingModal_close)%act (RecordingModal_new store_recording)))))
  = true.
Proof.
  exact (proj1 (proj2 (proj2
           (close_without_stop_keeps_recording browser_ok store_recording
              stream0 [2]%positive eq_refl eq_refl eq_refl eq_refl)))).
Defined.

Lemma ticks_run (n : nat) (v : RecordingView) :
  ticks n v
  = {| act_final :=
         match n with
         | O => v
         | S _ => set_timer (seconds v + N.of_nat n)
                    (timer_text (seconds v + N.of_nat n)) v
         end;
       act_calls := [];
       act_result := Normal tt |}.
Proof.
  revert v. induction n as [|n IH]; intros v; [reflexivity|].
  cbn [ticks]. unfold act_bind at 1, interval_tick, act_update, timer_tick.
  cbv zeta. rewrite IH. cbn [act_prefix List.app].
  destruct n as [|n].
  - replace (seconds v + N.of_nat 1)%N with (seconds v + 1)%N by lia.
    reflexivity.
  - cbn [set_timer seconds view_store audioContext analyser animationFrameId
         timerIntervalId timerEl].
    replace (seconds v + 1 + N.of_nat (S n))%N
      with (seconds v + N.of_nat (S (S n)))%N by lia.
    reflexivity.
Qed.

(** X29: the timer starts at 00:00 and after [n] ticks of its interval the
    count of the modal is [n] and its text is the one for [n] seconds. *)
Theorem timer_counts_the_ticks (b : Browser) (st : Store) (s : MediaStream)
        (n : nat) :
  getContext b = true ->
  AudioContext_new b = resolved tt ->
  createMediaStreamSource b = resolved tt ->
  stream (plugin st) = Some s ->
  let r := (RecordingModal_showRecordingUI b ;; ticks n)%act
             (RecordingModal_new st) in
  seconds (act_final r) = N.of_nat n
  /\ timerEl (act_final r) = timer_text (N.of_nat n).
Proof.
  cbv zeta. intros Hctx Haudio Hsource Hstream.
  unfold act_bind.
  rewrite (showRecordingUI_ok b st s Hctx Haudio Hsource Hstream).
  rewrite ticks_run. cbn [act_prefix act_final].
  destruct n; split; reflexivity.
Qed.

Lemma timer_counts_the_ticks_witness :
  timerEl (act_final ((RecordingModal_showRecordingUI browser_ok ;; ticks 75)%act
                        (RecordingModal_new store_recording)))
  = lit "01:15".
Proof.
  exact (proj2 (timer_counts_the_ticks browser_ok store_recording stream0 75
                  eq_refl eq_refl eq_refl eq_refl)).
Defined.

(** X30: when the audio context or its source cannot be made, the view
    shows the message of the error after "Error showing recording UI: " and
    closes itself, clearing the interval it has just set; the plugin is left
    as it is, so a recorder that was started goes on recording. *)
Theorem recording_ui_failure (b : Browser) (st : Store) (s : MediaStream)
        (e : Thrown) :
  getContext b = true ->
  stream (plugin st) = Some s ->
  AudioContext_new b = rejected e
  \/ (AudioContext_new b = resolved tt /\ createMediaStreamSource b = rejected e) ->
  let r := RecordingModal_showRecordingUI b (RecordingModal_new st) in
  act_result r = Normal tt
  /\ view_notices (act_calls r)
     = [lit "Error showing recording UI: " ++ show_message e]
  /\ view_closes (act_calls r) = 1
  /\ set_intervals (act_calls r) = [setInterval b]
  /\ cleared_intervals (act_calls r) = [setInterval b]
  /\ requested_frames (act_calls r) = []
  /\ view_store (act_final r) = st.
Proof.
  cbv zeta. intros Hctx Hstream Hfail.
  destruct st as [p pr]. cbn [plugin] in Hstream.
  destruct Hfail as [Haudio|[Haudio Hsource]].
  - view_unfold. rewrite Hctx. view_unfold. rewrite Haudio. view_unfold.
    repeat split.
  - view_unfold. rewrite Hctx. view_unfold. rewrite Haudio. view_unfold.
    rewrite Hstream. view_unfold. rewrite Hsource. view_unfold.
    repeat split.
Qed.

Lemma recording_ui_failure_witness :
  cleared_intervals
    (act_calls (RecordingModal_showRecordingUI
                  {| getContext := true; setInterval := 7%positive;
                     AudioContext_new := rejected (failure "NotAllowedError");
                     createMediaStreamSource := resolved tt;
                     requestAnimationFrame := 1%positive |}
                  (RecordingModal_new store_recording)))
  = [7%positive].
Proof.
  pose proof (recording_ui_failure
                {| getContext := true; setInterval := 7%positive;
                   AudioContext_new := rejected (failure "NotAllowedError");
                   createMediaStreamSource := resolved tt;
                   requestAnimationFrame := 1%positive |}
                store_recording stream0 (failure "NotAllowedError")
                eq_refl eq_refl (or_introl eq_refl))
    as (_ & _ & _ & _ & Hcleared & _).
  exact Hcleared.
Defined.
